(** * manifesta3: camera navigation and popup state of the 3D image gallery

    A shallow embedding of the state-carrying parts of
    [src/Experience/Experience.jsx]:

    - [ZoomPan]: the drag and zoom handlers ([handleDrag], [handleZoom]);
    - [Selection]: the selection/popup handlers of [Experience]
      ([handleImageClick], [handleClosePopup], [handleNext], [handlePrevious]);
    - [PanAnimator]: the keyboard pan animator of [SceneContent]
      ([handleKeyDown] and the [useFrame] callback);
    - [Popup]: the scale-in animation of [FixedImagePopup] ([animate]).

    JavaScript numbers are IEEE 754 binary64 values.  Zoom levels, offsets,
    vectors and scales are modelled by Rocq's primitive floats, whose
    operations are the binary64 ones, so every definition below evaluates to
    the value the JavaScript code computes.  Array indices are integers far
    below 2^53 (an array has fewer than 2^32 elements), on which binary64
    arithmetic is exact; they are modelled by [Z] together with the one
    non-integer value the index arithmetic can produce, [NaN]. *)

From Stdlib Require Import ZArith List String Bool Lia.
From Stdlib Require Import Floats.
Import ListNotations.

Set Warnings "-inexact-float".

(** React state setters do not change the values the running handler reads:
    a handler is a function from the state it closed over to the state that
    is committed when it returns.  Each handler below is written that way. *)

(* ------------------------------------------------------------------------- *)
(** * Part I: the program *)

(* ------------------------------------------------------------------------- *)
(** ** Zoom/pan controller: [handleDrag] and [handleZoom] *)

Module ZoomPan.

Local Open Scope float_scope.

(** [{ x, y }], the value held by the [position] state. *)
Record Position : Set := mkPosition { x : float; y : float }.

(** The two pieces of state the handlers read and set. *)
Record State : Set := mkState {
  currentZoomLevel : float;
  position : Position
}.

(** The part of a pointer event [handleDrag] reads. *)
Record DragEvent : Set := mkDragEvent { movementX : float; movementY : float }.

Definition setCurrentZoomLevel (l : float) (s : State) : State :=
  {| currentZoomLevel := l; position := position s |}.

Definition setPosition (p : Position) (s : State) : State :=
  {| currentZoomLevel := currentZoomLevel s; position := p |}.

Definition origin : Position := {| x := 0; y := 0 |}.

Definition minZoomLevel : float := 15.0.
Definition maxZoomLevel : float := 1.0.

(** [handleDrag]: the speed factor is chosen from the zoom level the handler
    sees, the functional update [setPosition(prev => ...)] adds to the
    latest position. *)
Definition panSpeedFactor (level : float) : float :=
  if level <? 5.0 then 3.0 else 2.5.

Definition handleDrag (e : DragEvent) (s : State) : State :=
  let deltaX := movementX e * panSpeedFactor (currentZoomLevel s) in
  let deltaY := movementY e * panSpeedFactor (currentZoomLevel s) in
  setPosition {| x := x (position s) + deltaX;
                 y := y (position s) + deltaY |} s.

(** [handleZoom]: [s] is the state the handler closed over, [s1] the state
    after the if / else-if chain, the result the state after the trailing
    re-check, which still reads the level of [s].  The chain has a fourth,
    silent case: none of the three tests holds when [newZoomLevel] is NaN. *)
Definition handleZoom (delta : float) (s : State) : State :=
  let newZoomLevel := currentZoomLevel s + delta in
  let s1 :=
    if (maxZoomLevel <=? newZoomLevel) && (newZoomLevel <=? minZoomLevel) then
      let s' := setCurrentZoomLevel newZoomLevel s in
      if newZoomLevel =? minZoomLevel then setPosition origin s' else s'
    else if newZoomLevel <? maxZoomLevel then
      setCurrentZoomLevel maxZoomLevel s
    else if minZoomLevel <? newZoomLevel then
      setPosition origin (setCurrentZoomLevel minZoomLevel s)
    else s in
  if currentZoomLevel s =? minZoomLevel then setPosition origin s1 else s1.

(** [max <= level <= min], with JavaScript's [<=]. *)
Definition in_range (level : float) : Prop :=
  (maxZoomLevel <=? level) = true /\ (level <=? minZoomLevel) = true.

(** [level === min]. *)
Definition at_min (level : float) : Prop :=
  (level =? minZoomLevel) = true.

(** The two inputs of the controller, and a run of it over a sequence of
    them. *)
Inductive Event : Set :=
| Drag (e : DragEvent)
| Zoom (delta : float).

Definition step (s : State) (ev : Event) : State :=
  match ev with
  | Drag e => handleDrag e s
  | Zoom delta => handleZoom delta s
  end.

Definition run (trace : list Event) (s : State) : State :=
  fold_left step trace s.

End ZoomPan.

(* ------------------------------------------------------------------------- *)
(** ** Selection/popup state of [Experience] *)

Module Selection.

Local Open Scope Z_scope.

(** The numbers the index arithmetic works on: integers, and NaN, which [%]
    yields for a zero divisor.  (JavaScript's [-0], which [%] yields for a
    negative multiple of the divisor, is identified with [0]: [===], [+] and
    array indexing do not tell them apart.) *)
Inductive number : Set :=
| Int (z : Z)
| NaN.

(** What [selectedImageIndex] holds: [null] initially, a number afterwards. *)
Inductive value : Set :=
| Null
| Number (n : number).

(** The coercion [+] and [-] apply to their operands: [null] becomes [0]. *)
Definition ToNumber (v : value) : number :=
  match v with
  | Null => Int 0
  | Number n => n
  end.

Definition add (a b : number) : number :=
  match a, b with
  | Int p, Int q => Int (p + q)
  | _, _ => NaN
  end.

Definition sub (a b : number) : number :=
  match a, b with
  | Int p, Int q => Int (p - q)
  | _, _ => NaN
  end.

(** [a % b]: the remainder has the sign of the dividend, and is NaN when the
    divisor is zero. *)
Definition rem (a b : number) : number :=
  match a, b with
  | Int p, Int q => if q =? 0 then NaN else Int (Z.rem p q)
  | _, _ => NaN
  end.

(** [Array.prototype.findIndex]: the index of the first element satisfying
    the predicate, [-1] when there is none. *)
Fixpoint findIndex_from {A : Type} (p : A -> bool) (l : list A) (k : Z) : Z :=
  match l with
  | [] => -1
  | a :: l' => if p a then k else findIndex_from p l' (k + 1)
  end.

Definition findIndex {A : Type} (p : A -> bool) (l : list A) : Z :=
  findIndex_from p l 0.

(** [l[v]] for the values an index can hold: [undefined] ([None]) outside
    [0 .. length - 1] and for NaN and [null]. *)
Definition at_index {A : Type} (l : list A) (v : value) : option A :=
  match v with
  | Number (Int z) => if z <? 0 then None else nth_error l (Z.to_nat z)
  | _ => None
  end.

(** The [useState] cells of [Experience]. *)
Record State : Type := mkState {
  selectedImageIndex : value;
  showPopup : bool;
  popupText : string
}.

Definition initial : State :=
  {| selectedImageIndex := Null; showPopup := false; popupText := "" |}.

Definition setSelectedImageIndex (f : value -> value) (s : State) : State :=
  {| selectedImageIndex := f (selectedImageIndex s);
     showPopup := showPopup s;
     popupText := popupText s |}.

Definition setShowPopup (b : bool) (s : State) : State :=
  {| selectedImageIndex := selectedImageIndex s;
     showPopup := b;
     popupText := popupText s |}.

Section Catalog.

(** [images.json] is not part of the sources: the type of the identifiers and
    the catalog itself are parameters.  [strict_eq] is [===] on identifiers. *)
Variable Id : Type.
Variable strict_eq : Id -> Id -> bool.

Record ImageRecord : Type := mkImage {
  id : Id;
  path : string;
  position : list float;
  title : string;
  description : string
}.

Variable imagesData : list ImageRecord.

(** [imagesData.length]. *)
Definition length : number := Int (Z.of_nat (List.length imagesData)).

(** [handleImageClick(id, path, position)]: the result of [findIndex] is
    stored as it is. *)
Definition handleImageClick
    (id0 : Id) (path0 : string) (position0 : list float) (s : State) : State :=
  let index := findIndex (fun img => strict_eq (id img) id0) imagesData in
  setShowPopup true (setSelectedImageIndex (fun _ => Number (Int index)) s).

Definition handleClosePopup (s : State) : State :=
  setShowPopup false s.

Definition handleNext (s : State) : State :=
  setSelectedImageIndex
    (fun prev => Number (rem (add (ToNumber prev) (Int 1)) length)) s.

Definition handlePrevious (s : State) : State :=
  setSelectedImageIndex
    (fun prev =>
       Number (rem (add (sub (ToNumber prev) (Int 1)) length) length)) s.

(** What [SceneContent] renders for the popup: nothing unless
    [showPopup && selectedImageIndex !== null]; otherwise [FixedImagePopup]
    for [imagesData[selectedImageIndex]], whose first statements read
    [image.path] and throw when the image is [undefined]. *)
Inductive Rendered : Type :=
| NoPopup
| PopupFor (image : ImageRecord)
| Throws.

Definition renderPopup (s : State) : Rendered :=
  match showPopup s, selectedImageIndex s with
  | true, Number _ =>
      match at_index imagesData (selectedImageIndex s) with
      | Some image => PopupFor image
      | None => Throws
      end
  | _, _ => NoPopup
  end.

(** An identifier is absent when no record of the catalog carries it. *)
Definition absent (id0 : Id) : Prop :=
  forall img, In img imagesData -> strict_eq (id img) id0 = false.

End Catalog.

Arguments mkImage {Id}.
Arguments id {Id}.
Arguments handleImageClick {Id}.
Arguments handleNext {Id}.
Arguments handlePrevious {Id}.
Arguments renderPopup {Id}.
Arguments absent {Id}.
Arguments length {Id}.

(** The catalog of the specification's scenario, [[{id:1},{id:2},{id:3}]]. *)
Definition catalog3 : list (ImageRecord Z) :=
  [ mkImage 1 "" [] "" ""; mkImage 2 "" [] "" ""; mkImage 3 "" [] "" "" ].

Section Events.

Variable Id : Type.
Variable strict_eq : Id -> Id -> bool.
Variable imagesData : list (ImageRecord Id).

(** [planePositions], the memo of [Experience].  A record's [position] is an
    array here, which is truthy even when empty, so [||] never substitutes
    [[0, 0, 0]]. *)
Definition planePositions : list (list float) :=
  map (@position Id) imagesData.

(** The [onClick] of the [k]-th [ImagePlane], which calls
    [onClick(id, path, position)] with the props [SceneContent] gave that
    plane.  Planes exist for the indices of [imagesData] only; for another
    [k] there is nothing to click and the state stays. *)
Definition clickPlane (k : nat) (s : State) : State :=
  match nth_error imagesData k, nth_error planePositions k with
  | Some image, Some position0 =>
      handleImageClick strict_eq imagesData
        (id image) (path Id image) position0 s
  | _, _ => s
  end.

(** What the user can do to the selection: click a plane, or press one of
    the three buttons of the popup. *)
Inductive Event : Set :=
| ClickPlane (k : nat)
| ClosePopup
| NextImage
| PreviousImage.

Definition step (s : State) (e : Event) : State :=
  match e with
  | ClickPlane k => clickPlane k s
  | ClosePopup => handleClosePopup s
  | NextImage => handleNext imagesData s
  | PreviousImage => handlePrevious imagesData s
  end.

Definition run (trace : list Event) (s : State) : State :=
  fold_left step trace s.

(** [===] holds between the identifier of every record and itself (it fails
    only for an identifier that is NaN). *)
Definition self_equal : Prop :=
  forall img, In img imagesData -> strict_eq (id img) (id img) = true.

(** An index that [imagesData[...]] finds a record at. *)
Definition valid_index (v : value) : Prop :=
  exists i, v = Number (Int i) /\ 0 <= i < Z.of_nat (List.length imagesData).

(** What every reachable state satisfies: with an empty catalog the popup is
    never shown; otherwise the index is [null] or valid, and valid whenever
    the popup is shown. *)
Definition reachable_inv (s : State) : Prop :=
  (Z.of_nat (List.length imagesData) = 0 /\ showPopup s = false)
  \/ (0 < Z.of_nat (List.length imagesData)
      /\ (selectedImageIndex s = Null
          \/ valid_index (selectedImageIndex s))
      /\ (showPopup s = true -> valid_index (selectedImageIndex s))).

End Events.

Arguments reachable_inv {Id}.
Arguments planePositions {Id}.
Arguments clickPlane {Id}.
Arguments step {Id}.
Arguments run {Id}.
Arguments self_equal {Id}.
Arguments valid_index {Id}.

End Selection.

(* ------------------------------------------------------------------------- *)
(** ** Scale-in animation of [FixedImagePopup] *)

Module Popup.

Local Open Scope float_scope.

(** The animation effect's variables: [scale] is the [let] of the effect,
    [popupScale] the [useState] cell the popup is drawn with, and
    [animationFrame] tells whether a [requestAnimationFrame(animate)] is
    outstanding, so that the next frame runs [animate]. *)
Record Anim : Set := mkAnim {
  scale : float;
  popupScale : float;
  animationFrame : bool
}.

(** [scale += (1 - scale) * 0.15]. *)
Definition ease (scale0 : float) : float :=
  scale0 + (1 - scale0) * 0.15.

(** The test of [animate], [Math.abs(scale - 1) > 0.01]. *)
Definition far_from_one (scale0 : float) : bool :=
  0.01 <? abs (scale0 - 1).

Definition animate (a : Anim) : Anim :=
  let scale1 := ease (scale a) in
  if far_from_one scale1 then
    {| scale := scale1; popupScale := scale1; animationFrame := true |}
  else
    {| scale := scale1; popupScale := 1; animationFrame := false |}.

(** The effect body, run at mount and whenever [image] changes (after the
    clean-up cancelled an outstanding request): [scale] restarts at [0.7],
    [popupScale] is whatever it was, and [animate] runs once at once. *)
Definition effect (popupScale0 : float) : Anim :=
  animate {| scale := 0.7; popupScale := popupScale0; animationFrame := false |}.

(** [useState(0.7)] followed by the effect. *)
Definition initialScale : float := 0.7.

Definition mount : Anim := effect initialScale.

(** One frame tick: the browser runs the outstanding callback, if any. *)
Definition frame (a : Anim) : Anim :=
  if animationFrame a then animate a else a.

(** The convergence condition, [|scale - 1| <= 0.01]. *)
Definition within_tolerance (scale0 : float) : bool :=
  abs (scale0 - 1) <=? 0.01.

(** [animate] took its snap branch on [a]: [|scale - 1| > 0.01] is false for
    the eased scale. *)
Definition settles (a : Anim) : bool :=
  negb (far_from_one (ease (scale a))).

Definition within (lo hi v : float) : bool := (lo <=? v) && (v <=? hi).

(** Every check the scale-in animation has to pass at one state: both scales
    lie in [[0.7, 1]] and the next frame decreases neither. *)
Definition step_ok (a : Anim) : bool :=
  within initialScale 1 (scale a)
  && within initialScale 1 (popupScale a)
  && (scale a <=? scale (frame a))
  && (popupScale a <=? popupScale (frame a)).

(** The animation is under way: a frame is requested and the displayed
    scale is still below 1. *)
Definition running (a : Anim) : bool :=
  animationFrame a && (popupScale a <? 1).

(** The number of frames after the effect at which the animation has stopped,
    and the state it stops in. *)
Definition settle_frames : nat := 20.

Definition settled : Anim :=
  {| scale := 0.9901163195734487; popupScale := 1; animationFrame := false |}.

End Popup.

(* ------------------------------------------------------------------------- *)
(** ** Keyboard pan animator of [SceneContent] *)

Module PanAnimator.

Local Open Scope float_scope.

(** [THREE.Vector3] and the methods the animator calls.  The methods mutate
    [this]; here each returns the vector [this] has become. *)
Record Vector3 : Set := mkVector3 { x : float; y : float; z : float }.

Definition clone (v : Vector3) : Vector3 := v.

Definition copy (this v : Vector3) : Vector3 := v.

Definition add (this v : Vector3) : Vector3 :=
  {| x := x this + x v; y := y this + y v; z := z this + z v |}.

Definition multiplyScalar (this : Vector3) (scalar : float) : Vector3 :=
  {| x := x this * scalar; y := y this * scalar; z := z this * scalar |}.

Definition lerp (this v : Vector3) (alpha : float) : Vector3 :=
  {| x := x this + (x v - x this) * alpha;
     y := y this + (y v - y this) * alpha;
     z := z this + (z v - z this) * alpha |}.

Definition distanceToSquared (this v : Vector3) : float :=
  let dx := x this - x v in
  let dy := y this - y v in
  let dz := z this - z v in
  dx * dx + dy * dy + dz * dz.

Definition distanceTo (this v : Vector3) : float :=
  sqrt (distanceToSquared this v).

(** [THREE.Matrix4]: sixteen elements, column by column.  An element that is
    missing reads as [undefined], which arithmetic turns into NaN. *)
Record Matrix4 : Set := mkMatrix4 { elements : list float }.

Definition fromArray (array : list float) (offset : nat) : Vector3 :=
  {| x := nth offset array nan;
     y := nth (offset + 1) array nan;
     z := nth (offset + 2) array nan |}.

Definition setFromMatrixColumn (m : Matrix4) (index : nat) : Vector3 :=
  fromArray (elements m) (index * 4).

(** The camera ([controls.object]) and the controls, as far as the animator
    reads and writes them. *)
Record Camera : Set := mkCamera { position : Vector3; matrix : Matrix4 }.

Record MapControls : Set := mkMapControls {
  object : option Camera;
  target : Vector3
}.

(** The refs of [SceneContent] and the [panOffset] vector of its keyboard
    effect.  A ref whose [current] is [null] is [None].  (The effect makes a
    new [panOffset] each time it re-runs; the handler writes the vector
    before it reads it, so carrying one field along is not observable.) *)
Record Refs : Set := mkRefs {
  controlsRef : option MapControls;
  targetCameraPositionRef : option Vector3;
  targetControlsLookAtRef : option Vector3;
  isAnimatingPanRef : bool;
  panOffset : Vector3
}.

Definition moveDistance : float := 0.2.
Definition smoothingFactor : float := 0.1.
Definition distanceThreshold : float := 0.01.

(** The [switch (event.key)]: the new [panOffset] for an arrow key, [None]
    ([didPan] stays false) for any other key. *)
Definition keyPan (key : string) (currentCamera : Camera) : option Vector3 :=
  if String.eqb key "ArrowUp" then
    Some (multiplyScalar (setFromMatrixColumn (matrix currentCamera) 1)
            moveDistance)
  else if String.eqb key "ArrowDown" then
    Some (multiplyScalar (setFromMatrixColumn (matrix currentCamera) 1)
            (- moveDistance))
  else if String.eqb key "ArrowLeft" then
    Some (multiplyScalar (setFromMatrixColumn (matrix currentCamera) 0)
            (- moveDistance))
  else if String.eqb key "ArrowRight" then
    Some (multiplyScalar (setFromMatrixColumn (matrix currentCamera) 0)
            moveDistance)
  else None.

(** [handleKeyDown], for the [showPopup] its effect closed over. *)
Definition handleKeyDown (showPopup : bool) (key : string) (r : Refs) : Refs :=
  if showPopup then r
  else
    match controlsRef r with
    | None => r
    | Some controls =>
        match object controls with
        | None => r
        | Some currentCamera =>
            let targetPosition :=
              match targetCameraPositionRef r with
              | Some v => v
              | None => clone (position currentCamera)
              end in
            let targetLookAt :=
              match targetControlsLookAtRef r with
              | Some v => v
              | None => clone (target controls)
              end in
            match keyPan key currentCamera with
            | Some offset =>
                {| controlsRef := controlsRef r;
                   targetCameraPositionRef := Some (add targetPosition offset);
                   targetControlsLookAtRef := Some (add targetLookAt offset);
                   isAnimatingPanRef := true;
                   panOffset := offset |}
            | None =>
                {| controlsRef := controlsRef r;
                   targetCameraPositionRef := Some targetPosition;
                   targetControlsLookAtRef := Some targetLookAt;
                   isAnimatingPanRef := isAnimatingPanRef r;
                   panOffset := panOffset r |}
            end
        end
    end.

Definition setControls (c : MapControls) (r : Refs) : Refs :=
  {| controlsRef := Some c;
     targetCameraPositionRef := targetCameraPositionRef r;
     targetControlsLookAtRef := targetControlsLookAtRef r;
     isAnimatingPanRef := isAnimatingPanRef r;
     panOffset := panOffset r |}.

Section Frame.

(** [MapControls.update] belongs to the controls library: a parameter. *)
Variable update : MapControls -> MapControls.

(** The first half of the frame callback: both lerps, then [update()]. *)
Definition approach (controls : MapControls) (tp tl : Vector3) : MapControls :=
  update
    {| object :=
         match object controls with
         | Some cam =>
             Some {| position := lerp (position cam) tp smoothingFactor;
                     matrix := matrix cam |}
         | None => None
         end;
       target := lerp (target controls) tl smoothingFactor |}.

(** The convergence test, on the controls as [update()] left them. *)
Definition reached (cam : Camera) (controls : MapControls)
    (tp tl : Vector3) : bool :=
  (distanceTo (position cam) tp <? distanceThreshold)
  && (distanceTo (target controls) tl <? distanceThreshold).

(** The [useFrame] callback of [SceneContent]. *)
Definition useFrame (r : Refs) : Refs :=
  match isAnimatingPanRef r, controlsRef r,
        targetCameraPositionRef r, targetControlsLookAtRef r with
  | true, Some controls, Some tp, Some tl =>
      let controls1 := approach controls tp tl in
      match object controls1 with
      | Some cam =>
          if reached cam controls1 tp tl then
            {| controlsRef :=
                 Some {| object := Some {| position := copy (position cam) tp;
                                           matrix := matrix cam |};
                         target := copy (target controls1) tl |};
               targetCameraPositionRef := targetCameraPositionRef r;
               targetControlsLookAtRef := targetControlsLookAtRef r;
               isAnimatingPanRef := false;
               panOffset := panOffset r |}
          else setControls controls1 r
      | None => setControls controls1 r
      end
  | _, _, _, _ => r
  end.

(** The frame callback takes its snap branch on [r]: the animator is armed
    and, after this frame's lerps, both remaining distances are below the
    threshold. *)
Definition snaps (r : Refs) : bool :=
  match isAnimatingPanRef r, controlsRef r,
        targetCameraPositionRef r, targetControlsLookAtRef r with
  | true, Some controls, Some tp, Some tl =>
      match object (approach controls tp tl) with
      | Some cam => reached cam (approach controls tp tl) tp tl
      | None => false
      end
  | _, _, _, _ => false
  end.

End Frame.

(** The identity matrix. *)
Definition identity4 : Matrix4 :=
  {| elements := [1; 0; 0; 0;  0; 1; 0; 0;  0; 0; 1; 0;  0; 0; 0; 1] |}.

(** The initial scene: the camera at [(0, 0, 10)] looking at the origin,
    nothing pending. *)
Definition atRest : Refs :=
  {| controlsRef :=
       Some {| object := Some {| position := mkVector3 0 0 10;
                                 matrix := identity4 |};
               target := mkVector3 0 0 0 |};
     targetCameraPositionRef := None;
     targetControlsLookAtRef := None;
     isAnimatingPanRef := false;
     panOffset := mkVector3 0 0 0 |}.

(** An armed animator five thousandths away from its target. *)
Definition almostThere : Refs :=
  {| controlsRef := controlsRef atRest;
     targetCameraPositionRef := Some (mkVector3 0.005 0 10);
     targetControlsLookAtRef := Some (mkVector3 0.005 0 0);
     isAnimatingPanRef := true;
     panOffset := mkVector3 0.2 0 0 |}.

(** The refs as [SceneContent] creates them ([useRef(null)], [useRef(false)],
    [new THREE.Vector3()]), around whatever [controlsRef] holds. *)
Definition mounted (controls : option MapControls) : Refs :=
  {| controlsRef := controls;
     targetCameraPositionRef := None;
     targetControlsLookAtRef := None;
     isAnimatingPanRef := false;
     panOffset := mkVector3 0 0 0 |}.

(** The four keys of the [switch]. *)
Definition isArrowKey (key : string) : bool :=
  String.eqb key "ArrowUp" || String.eqb key "ArrowDown"
  || String.eqb key "ArrowLeft" || String.eqb key "ArrowRight".

(** [controlsRef.current && controlsRef.current.object]. *)
Definition hasCamera (r : Refs) : bool :=
  match controlsRef r with
  | Some controls =>
      match object controls with Some _ => true | None => false end
  | None => false
  end.

(** An armed animator has its controls and both targets. *)
Definition armed_inv (r : Refs) : Prop :=
  isAnimatingPanRef r = true ->
  exists controls tp tl,
    controlsRef r = Some controls
    /\ targetCameraPositionRef r = Some tp
    /\ targetControlsLookAtRef r = Some tl.

(** The offset one key press adds to the targets: the [panOffset] of the
    [switch], when the popup is hidden, the controls and their camera are
    there and the key is an arrow key ([didPan]); none otherwise. *)
Definition keyOffset (showPopup : bool) (key : string) (r : Refs)
    : list Vector3 :=
  if showPopup then []
  else
    match controlsRef r with
    | Some controls =>
        match object controls with
        | Some currentCamera =>
            match keyPan key currentCamera with
            | Some offset => [offset]
            | None => []
            end
        | None => []
        end
    | None => []
    end.

Section Events.

Variable update : MapControls -> MapControls.

(** What happens to the animator: a key press, handled by the listener that
    closed over the given [showPopup], or a rendered frame. *)
Inductive Event : Set :=
| KeyDown (showPopup : bool) (key : string)
| FrameTick.

Definition step (r : Refs) (ev : Event) : Refs :=
  match ev with
  | KeyDown showPopup key => handleKeyDown showPopup key r
  | FrameTick => useFrame update r
  end.

Definition run (trace : list Event) (r : Refs) : Refs :=
  fold_left step trace r.

(** The offsets the key presses of a run add, in order, each taken in the
    state its key press finds; a frame adds none. *)
Fixpoint panOffsets (trace : list Event) (r : Refs) : list Vector3 :=
  match trace with
  | [] => []
  | ev :: rest =>
      match ev with
      | KeyDown showPopup key => keyOffset showPopup key r
      | FrameTick => []
      end ++ panOffsets rest (step r ev)
  end.

End Events.

End PanAnimator.

(* ------------------------------------------------------------------------- *)
(** * Part II: properties *)

(* ------------------------------------------------------------------------- *)
(** ** Comparisons of binary64 numbers *)

Module FloatFacts.

Local Open Scope float_scope.

(** Swapping the operands of the specification's comparison flips its
    result; NaN stays incomparable. *)
Lemma SFcompare_swap (f1 f2 : spec_float) :
  SFcompare f2 f1 = option_map CompOpp (SFcompare f1 f2).
Proof.
  destruct f1 as [s1|s1| |s1 m1 e1], f2 as [s2|s2| |s2 m2 e2]; cbn;
    try destruct s1; try destruct s2; try reflexivity;
    rewrite (Z.compare_antisym e1 e2);
    destruct (e1 ?= e2)%Z; cbn; try reflexivity;
    rewrite (Pos.compare_cont_antisym m1 m2 Eq); reflexivity.
Qed.

(** [x <= y] excludes [y < x] (both are false when an operand is NaN). *)
Lemma leb_not_gtb (x y : float) : (x <=? y) = true -> (y <? x) = false.
Proof.
  rewrite leb_spec, ltb_spec. unfold SFleb, SFltb.
  rewrite (SFcompare_swap (Prim2SF x) (Prim2SF y)).
  destruct (SFcompare (Prim2SF x) (Prim2SF y)) as [[| |]|]; cbn;
    congruence.
Qed.

(** Adding NaN gives NaN. *)
Lemma add_nan (x : float) : x + nan = nan.
Proof.
  apply Prim2SF_inj. rewrite add_spec.
  change (Prim2SF nan) with S754_nan.
  destruct (Prim2SF x); reflexivity.
Qed.

(** A number between two positive finite numbers is positive and finite. *)
Lemma between_finite (lo hi x : float) (mlo mhi : positive) (elo ehi : Z) :
  Prim2SF lo = S754_finite false mlo elo ->
  Prim2SF hi = S754_finite false mhi ehi ->
  (lo <=? x) = true -> (x <=? hi) = true ->
  exists m e, Prim2SF x = S754_finite false m e.
Proof.
  intros Hlo Hhi. rewrite !leb_spec, Hlo, Hhi. unfold SFleb.
  destruct (Prim2SF x) as [sx|sx| |sx m e]; cbn.
  - discriminate.
  - destruct sx; discriminate.
  - discriminate.
  - destruct sx; [discriminate|]. intros _ _. exists m, e. reflexivity.
Qed.

(** Adding an infinity to a finite number gives that infinity. *)
Lemma add_infinity (x : float) (m : positive) (e : Z) :
  Prim2SF x = S754_finite false m e ->
  x + infinity = infinity /\ x + neg_infinity = neg_infinity.
Proof.
  intros Hx. split; apply Prim2SF_inj; rewrite add_spec, Hx; reflexivity.
Qed.

End FloatFacts.

(* ------------------------------------------------------------------------- *)
(** ** Zoom and drag *)

Module ZoomPanFacts.

Import ZoomPan.
Local Open Scope float_scope.

Lemma at_min_eq (level : float) : level = minZoomLevel -> at_min level.
Proof. intros ->. reflexivity. Qed.

Lemma in_range_max : in_range maxZoomLevel.
Proof. split; reflexivity. Qed.

Lemma in_range_min : in_range minZoomLevel.
Proof. split; reflexivity. Qed.

Lemma max_not_at_min : ~ at_min maxZoomLevel.
Proof. unfold at_min. vm_compute. discriminate. Qed.

(** The level [handleZoom] commits, branch by branch. *)
Lemma handleZoom_level delta s :
  let n := currentZoomLevel s + delta in
  currentZoomLevel (handleZoom delta s) =
    if (maxZoomLevel <=? n) && (n <=? minZoomLevel) then n
    else if n <? maxZoomLevel then maxZoomLevel
    else if minZoomLevel <? n then minZoomLevel
    else currentZoomLevel s.
Proof.
  cbv zeta. unfold handleZoom.
  destruct (currentZoomLevel s =? minZoomLevel);
    destruct ((maxZoomLevel <=? currentZoomLevel s + delta)
              && (currentZoomLevel s + delta <=? minZoomLevel));
    destruct (currentZoomLevel s + delta =? minZoomLevel);
    destruct (currentZoomLevel s + delta <? maxZoomLevel);
    destruct (minZoomLevel <? currentZoomLevel s + delta);
    reflexivity.
Qed.

(** C1. For every starting state whose level satisfies [max <= level <= min]
    and every numeric [delta] (NaN and the infinities included), the level
    after [handleZoom delta] satisfies [max <= level <= min], where
    [min = 15.0] is the zoom-out bound and [max = 1.0] the zoom-in bound. *)
Theorem handleZoom_in_range (delta : float) (s : State) :
  in_range (currentZoomLevel s) ->
  in_range (currentZoomLevel (handleZoom delta s)).
Proof.
  intros Hs. rewrite handleZoom_level. cbv zeta.
  destruct ((maxZoomLevel <=? currentZoomLevel s + delta)
            && (currentZoomLevel s + delta <=? minZoomLevel)) eqn:Hin.
  - apply andb_true_iff in Hin. exact Hin.
  - destruct (currentZoomLevel s + delta <? maxZoomLevel).
    + apply in_range_max.
    + destruct (minZoomLevel <? currentZoomLevel s + delta).
      * apply in_range_min.
      * exact Hs.
Qed.

Lemma handleZoom_in_range_witness :
  in_range (currentZoomLevel (handleZoom 3.0 (mkState 14.0 (mkPosition 7.5 (-2.0))))).
Proof.
  apply (handleZoom_in_range 3.0 (mkState 14.0 (mkPosition 7.5 (-2.0)))).
  split; reflexivity.
Defined.

Lemma handleZoom_at_min_centered (delta : float) (s : State) :
  at_min (currentZoomLevel (handleZoom delta s)) ->
  position (handleZoom delta s) = origin.
Proof.
  unfold at_min, handleZoom.
  destruct (currentZoomLevel s =? minZoomLevel) eqn:Hcur; [reflexivity|].
  destruct ((maxZoomLevel <=? currentZoomLevel s + delta)
            && (currentZoomLevel s + delta <=? minZoomLevel)).
  - destruct (currentZoomLevel s + delta =? minZoomLevel) eqn:Hnew;
      [reflexivity|].
    cbn. intros H. congruence.
  - destruct (currentZoomLevel s + delta <? maxZoomLevel).
    + cbn. intros H. destruct (max_not_at_min H).
    + destruct (minZoomLevel <? currentZoomLevel s + delta);
        [reflexivity|].
      intros H. congruence.
Qed.

(** C2. For every starting state and every [delta], whenever the level
    committed by [handleZoom delta] equals [min] (is the value [15.0], or
    compares [===] to it), the committed pan offset is [{x: 0, y: 0}]: on
    the accepted-at-[min] branch, on the clamped-from-above branch, and when
    the level stays at [min]. *)
Theorem handleZoom_min_centered (delta : float) (s : State) :
  currentZoomLevel (handleZoom delta s) = minZoomLevel
  \/ at_min (currentZoomLevel (handleZoom delta s)) ->
  position (handleZoom delta s) = origin.
Proof.
  intros [H|H]; apply handleZoom_at_min_centered; [|exact H].
  apply at_min_eq, H.
Qed.

Lemma handleZoom_min_centered_witness :
  position (handleZoom 3.0 (mkState 14.0 (mkPosition 7.5 (-2.0)))) = origin
  /\ position (handleZoom 0.0 (mkState 15.0 (mkPosition 7.5 (-2.0)))) = origin.
Proof.
  split.
  - apply (handleZoom_min_centered 3.0 (mkState 14.0 (mkPosition 7.5 (-2.0)))).
    left. reflexivity.
  - apply (handleZoom_min_centered 0.0 (mkState 15.0 (mkPosition 7.5 (-2.0)))).
    right. reflexivity.
Defined.

(** The zoom scenarios of the specification, evaluated. *)
Example zoom_in_beyond_limit (p : Position) :
  handleZoom (-6.0) (mkState 5.0 p) = mkState 1.0 p.
Proof. reflexivity. Qed.

Example zoom_out_beyond_limit (p : Position) :
  handleZoom 3.0 (mkState 14.0 p) = mkState 15.0 origin.
Proof. reflexivity. Qed.

Example zoom_nan_keeps_state (p : Position) :
  handleZoom nan (mkState 5.0 p) = mkState 5.0 p.
Proof. reflexivity. Qed.

Example zoom_out_again_at_min (p : Position) :
  handleZoom 1.0 (mkState 15.0 p) = mkState 15.0 origin.
Proof. reflexivity. Qed.

(** C8. For every drag event and every current zoom level, [handleDrag] adds
    [movement * multiplier] to the offset on each axis and leaves the zoom
    level alone, where the multiplier is [3.0] when the level is strictly
    below [5.0] and [2.5] otherwise; with [movementX = 4] at level [3.0] the
    product is exactly [12], which is what is added to [offset.x]. *)
Theorem handleDrag_adds_scaled_movement :
  (forall (e : DragEvent) (s : State),
     let multiplier := if currentZoomLevel s <? 5.0 then 3.0 else 2.5 in
     position (handleDrag e s) =
       {| x := x (position s) + movementX e * multiplier;
          y := y (position s) + movementY e * multiplier |}
     /\ currentZoomLevel (handleDrag e s) = currentZoomLevel s)
  /\ (forall (p : Position) (my : float),
        x (position (handleDrag (mkDragEvent 4.0 my) (mkState 3.0 p)))
        = x p + 12.0)
  /\ position (handleDrag (mkDragEvent 4.0 0.0) (mkState 3.0 origin))
     = {| x := 12.0; y := 0.0 |}.
Proof.
  split; [|split].
  - intros e s. cbv zeta. unfold handleDrag, panSpeedFactor. cbn.
    split; reflexivity.
  - intros p my. reflexivity.
  - reflexivity.
Qed.

Example drag_at_threshold (p : Position) :
  handleDrag (mkDragEvent 4.0 0.0) (mkState 5.0 p)
  = mkState 5.0 {| x := x p + 10.0; y := y p + 0.0 |}.
Proof. reflexivity. Qed.

(** *** Beyond the claims: the offset, odd deltas, and runs of events *)

(** The offset [handleZoom] commits. *)
Lemma handleZoom_offset (delta : float) (s : State) :
  position (handleZoom delta s)
  = if (currentZoomLevel s =? minZoomLevel)
       || (currentZoomLevel (handleZoom delta s) =? minZoomLevel)
    then origin else position s.
Proof.
  unfold handleZoom.
  destruct (currentZoomLevel s =? minZoomLevel) eqn:Hcur; [reflexivity|].
  cbn [orb].
  destruct ((maxZoomLevel <=? currentZoomLevel s + delta)
            && (currentZoomLevel s + delta <=? minZoomLevel)).
  - destruct (currentZoomLevel s + delta =? minZoomLevel) eqn:Hnew; cbn.
    + rewrite Hnew. reflexivity.
    + rewrite Hnew. reflexivity.
  - destruct (currentZoomLevel s + delta <? maxZoomLevel); [reflexivity|].
    destruct (minZoomLevel <? currentZoomLevel s + delta); [reflexivity|].
    rewrite Hcur. reflexivity.
Qed.

(** [handleZoom] keeps a level that is within the limits within them. *)
Lemma handleZoom_keeps_range (delta : float) (s : State) :
  in_range (currentZoomLevel s) ->
  in_range (currentZoomLevel (handleZoom delta s)).
Proof.
  intros Hs. rewrite handleZoom_level. cbv zeta.
  destruct ((maxZoomLevel <=? currentZoomLevel s + delta)
            && (currentZoomLevel s + delta <=? minZoomLevel)) eqn:Hin.
  - apply andb_true_iff, Hin.
  - destruct (currentZoomLevel s + delta <? maxZoomLevel);
      [apply in_range_max|].
    destruct (minZoomLevel <? currentZoomLevel s + delta);
      [apply in_range_min|exact Hs].
Qed.

(** X5. [handleZoom] touches the pan offset in one way only: it resets it to
    [{x: 0, y: 0}] when the level was at [min] before the call or is at
    [min] after it, and leaves it as it was in every other case; in
    particular it is left alone whenever the level neither was nor becomes
    [min]. *)
Theorem handleZoom_position (delta : float) (s : State) :
  position (handleZoom delta s)
  = (if (currentZoomLevel s =? minZoomLevel)
        || (currentZoomLevel (handleZoom delta s) =? minZoomLevel)
     then origin else position s)
  /\ (position (handleZoom delta s) = origin
      \/ position (handleZoom delta s) = position s).
Proof.
  split; [apply handleZoom_offset|].
  rewrite handleZoom_offset.
  destruct ((currentZoomLevel s =? minZoomLevel)
            || (currentZoomLevel (handleZoom delta s) =? minZoomLevel));
    [left|right]; reflexivity.
Qed.

(** X6. A drag at full zoom-out does move the offset; the zoom attempt that
    follows it, whatever its [delta], puts the offset back to
    [{x: 0, y: 0}]. *)
Theorem zoom_after_drag_at_min (e : DragEvent) (delta : float) (s : State) :
  at_min (currentZoomLevel s) ->
  position (handleZoom delta (handleDrag e s)) = origin.
Proof.
  unfold at_min. intros Hs. rewrite handleZoom_offset.
  change (currentZoomLevel (handleDrag e s)) with (currentZoomLevel s).
  rewrite Hs. reflexivity.
Qed.

Lemma zoom_after_drag_at_min_witness :
  position (handleDrag (mkDragEvent 4.0 (-2.0)) (mkState 15.0 origin))
  = {| x := 10.0; y := -5.0 |}
  /\ position (handleZoom (-3.0)
                (handleDrag (mkDragEvent 4.0 (-2.0)) (mkState 15.0 origin)))
     = origin.
Proof.
  split; [reflexivity|].
  apply (zoom_after_drag_at_min (mkDragEvent 4.0 (-2.0)) (-3.0)
           (mkState 15.0 origin)).
  reflexivity.
Defined.

Lemma in_range_finite (level : float) :
  in_range level -> exists m e, Prim2SF level = S754_finite false m e.
Proof.
  intros [Hlo Hhi].
  eapply (FloatFacts.between_finite maxZoomLevel minZoomLevel);
    [reflexivity|reflexivity|exact Hlo|exact Hhi].
Qed.

(** X7. Deltas that are not finite.  A NaN [delta] is ignored: the level
    stays, and the offset stays unless the level is [min].  From a level
    within the limits, [+Infinity] zooms fully out and centres, and
    [-Infinity] zooms fully in. *)
Theorem handleZoom_not_finite (s : State) :
  handleZoom nan s
  = (if currentZoomLevel s =? minZoomLevel then setPosition origin s else s)
  /\ (in_range (currentZoomLevel s) ->
      handleZoom infinity s = mkState minZoomLevel origin
      /\ currentZoomLevel (handleZoom neg_infinity s) = maxZoomLevel).
Proof.
  split.
  - unfold handleZoom. rewrite FloatFacts.add_nan. reflexivity.
  - intros Hs. destruct (in_range_finite _ Hs) as [m [e Hfin]].
    destruct (FloatFacts.add_infinity _ m e Hfin) as [Hinf Hneg].
    split.
    + unfold handleZoom. rewrite Hinf. cbn.
      destruct (currentZoomLevel s =? minZoomLevel); reflexivity.
    + rewrite handleZoom_level. cbv zeta. rewrite Hneg. reflexivity.
Qed.

Lemma handleZoom_not_finite_witness :
  handleZoom infinity (mkState 3.0 (mkPosition 7.5 (-2.0)))
  = mkState 15.0 origin
  /\ currentZoomLevel (handleZoom neg_infinity (mkState 3.0 (mkPosition 7.5 (-2.0))))
     = 1.0.
Proof.
  apply (handleZoom_not_finite (mkState 3.0 (mkPosition 7.5 (-2.0)))).
  split; reflexivity.
Defined.

(** X8. The limits hold along every run: from a level within
    [[max, min]], no sequence of drags and zooms, whatever the movements and
    the deltas, takes the level outside. *)
Theorem run_in_range (trace : list Event) (s : State) :
  in_range (currentZoomLevel s) ->
  in_range (currentZoomLevel (run trace s)).
Proof.
  unfold run. revert s.
  induction trace as [|ev trace IH]; intros s Hs; [exact Hs|].
  cbn [fold_left]. apply IH. destruct ev as [e|delta]; cbn [step].
  - exact Hs.
  - apply handleZoom_keeps_range, Hs.
Qed.

Lemma run_in_range_witness :
  in_range
    (currentZoomLevel
       (run [Zoom 20.0; Drag (mkDragEvent 4.0 1.0); Zoom nan; Zoom (-30.0);
             Zoom 0.5]
          (mkState 5.0 origin))).
Proof.
  apply (run_in_range
           [Zoom 20.0; Drag (mkDragEvent 4.0 1.0); Zoom nan; Zoom (-30.0);
            Zoom 0.5]
           (mkState 5.0 origin)).
  split; reflexivity.
Defined.

End ZoomPanFacts.

(* ------------------------------------------------------------------------- *)
(** ** Selection, next, previous, close *)

Module SelectionFacts.

Import Selection.
Local Open Scope Z_scope.

Lemma findIndex_from_absent {A : Type} (p : A -> bool) (l : list A) :
  (forall a, In a l -> p a = false) ->
  forall k, findIndex_from p l k = -1.
Proof.
  induction l as [|a l IH]; intros Hp k; cbn; [reflexivity|].
  rewrite (Hp a (or_introl eq_refl)).
  apply IH. intros b Hb. apply Hp. right. exact Hb.
Qed.

Section Stepping.

Variable Id : Type.
Variable imagesData : list (ImageRecord Id).

Let n : Z := Z.of_nat (List.length imagesData).

(** One [handleNext] from a valid index. *)
Lemma handleNext_index (s : State) (i : Z) :
  0 <= i < n ->
  selectedImageIndex s = Number (Int i) ->
  selectedImageIndex (handleNext imagesData s) = Number (Int ((i + 1) mod n)).
Proof.
  intros Hi Hs. unfold handleNext, setSelectedImageIndex, length. cbn.
  rewrite Hs. cbn. fold n.
  destruct (Z.eqb_spec n 0) as [E|_]; [lia|].
  rewrite Z.rem_mod_nonneg by lia. reflexivity.
Qed.

(** One [handlePrevious] from a valid index. *)
Lemma handlePrevious_index (s : State) (i : Z) :
  0 <= i < n ->
  selectedImageIndex s = Number (Int i) ->
  selectedImageIndex (handlePrevious imagesData s)
  = Number (Int ((i - 1 + n) mod n)).
Proof.
  intros Hi Hs. unfold handlePrevious, setSelectedImageIndex, length. cbn.
  rewrite Hs. cbn. fold n.
  destruct (Z.eqb_spec n 0) as [E|_]; [lia|].
  rewrite Z.rem_mod_nonneg by lia. reflexivity.
Qed.

Lemma iter_handleNext_index (s : State) (i : Z) :
  0 <= i < n ->
  selectedImageIndex s = Number (Int i) ->
  forall k : nat,
    selectedImageIndex (Nat.iter k (handleNext imagesData) s)
    = Number (Int ((i + Z.of_nat k) mod n)).
Proof.
  intros Hi Hs. induction k as [|k IH].
  - cbn. rewrite Z.add_0_r, Z.mod_small by lia. exact Hs.
  - rewrite Nat.iter_succ.
    rewrite (handleNext_index _ ((i + Z.of_nat k) mod n));
      [ | apply Z.mod_pos_bound; lia | exact IH ].
    rewrite Z.add_mod_idemp_l by lia.
    do 3 f_equal. lia.
Qed.

Lemma iter_handlePrevious_index (s : State) (i : Z) :
  0 <= i < n ->
  selectedImageIndex s = Number (Int i) ->
  forall k : nat,
    selectedImageIndex (Nat.iter k (handlePrevious imagesData) s)
    = Number (Int ((i - Z.of_nat k + Z.of_nat k * n) mod n)).
Proof.
  intros Hi Hs. induction k as [|k IH].
  - cbn. rewrite Z.sub_0_r, Z.add_0_r, Z.mod_small by lia. exact Hs.
  - rewrite Nat.iter_succ.
    rewrite (handlePrevious_index _
               ((i - Z.of_nat k + Z.of_nat k * n) mod n));
      [ | apply Z.mod_pos_bound; lia | exact IH ].
    replace ((i - Z.of_nat k + Z.of_nat k * n) mod n - 1 + n)
      with ((i - Z.of_nat k + Z.of_nat k * n) mod n + (n - 1)) by lia.
    rewrite Z.add_mod_idemp_l by lia.
    do 3 f_equal. lia.
Qed.

End Stepping.

(** C3. For every catalog of length [n > 0], every valid starting index [i]
    and every [k], [k] calls of [handleNext] leave
    [selectedImageIndex = (i + k) mod n] and [k] calls of [handlePrevious]
    leave [selectedImageIndex = (i - k + k*n) mod n].  In particular three
    [handleNext] calls on a three-element catalog from index 0 give
    [(0 + 3) mod 3 = 0]. *)
Theorem next_previous_cycle
    (Id : Type) (imagesData : list (ImageRecord Id))
    (s : State) (i : Z) (k : nat) :
  let n := Z.of_nat (List.length imagesData) in
  0 < n ->
  0 <= i < n ->
  selectedImageIndex s = Number (Int i) ->
  selectedImageIndex (Nat.iter k (handleNext imagesData) s)
    = Number (Int ((i + Z.of_nat k) mod n))
  /\ selectedImageIndex (Nat.iter k (handlePrevious imagesData) s)
    = Number (Int ((i - Z.of_nat k + Z.of_nat k * n) mod n)).
Proof.
  intros n _ Hi Hs. split.
  - apply iter_handleNext_index; assumption.
  - apply iter_handlePrevious_index; assumption.
Qed.

Lemma next_previous_cycle_catalog3 :
  let s0 := mkState (Number (Int 0)) true "" in
  selectedImageIndex (handleNext catalog3 (handleNext catalog3 (handleNext catalog3 s0)))
    = Number (Int 0)
  /\ selectedImageIndex
       (handlePrevious catalog3 (handlePrevious catalog3 (handlePrevious catalog3 s0)))
    = Number (Int 0).
Proof.
  exact (next_previous_cycle Z catalog3 (mkState (Number (Int 0)) true "") 0 3
           eq_refl (conj (Z.le_refl 0) eq_refl) eq_refl).
Defined.

Example next_from_last_wraps :
  handleNext catalog3 (mkState (Number (Int 2)) true "")
  = mkState (Number (Int 0)) true "".
Proof. reflexivity. Qed.

Example previous_from_first_wraps :
  handlePrevious catalog3 (mkState (Number (Int 0)) true "")
  = mkState (Number (Int 2)) true "".
Proof. reflexivity. Qed.

Example select_present :
  handleImageClick Z.eqb catalog3 2 "" [] initial
  = mkState (Number (Int 1)) true "".
Proof. reflexivity. Qed.

(** C4, as the code has it: for an identifier no record carries,
    [handleImageClick] is not a no-op.  There is no not-found guard: the
    [-1] of [findIndex] is stored in [selectedImageIndex] and [showPopup] is
    set, whatever the state was; only [popupText] is kept. *)
Theorem handleImageClick_absent
    (Id : Type) (strict_eq : Id -> Id -> bool)
    (imagesData : list (ImageRecord Id))
    (id0 : Id) (path0 : string) (position0 : list float) (s : State) :
  absent strict_eq imagesData id0 ->
  handleImageClick strict_eq imagesData id0 path0 position0 s
  = {| selectedImageIndex := Number (Int (-1));
       showPopup := true;
       popupText := popupText s |}.
Proof.
  intros Habs. unfold handleImageClick, findIndex.
  rewrite findIndex_from_absent by exact Habs.
  reflexivity.
Qed.

Lemma absent_catalog3_7 : absent Z.eqb catalog3 7.
Proof.
  intros img [<-|[<-|[<-|[]]]]; reflexivity.
Defined.

Lemma handleImageClick_absent_witness :
  handleImageClick Z.eqb catalog3 7 "" [] initial
  = {| selectedImageIndex := Number (Int (-1));
       showPopup := true;
       popupText := "" |}.
Proof.
  exact (handleImageClick_absent Z Z.eqb catalog3 7 "" [] initial
           absent_catalog3_7).
Defined.

(** C4 as stated fails: selecting the identifier 7, which the catalog
    [[{id:1},{id:2},{id:3}]] does not contain, changes the closed initial
    state (the popup is shown, the index is [-1]) and changes an open state
    showing image 1; the render that follows throws on [imagesData[-1]]. *)
Lemma handleImageClick_absent_not_noop :
  absent Z.eqb catalog3 7
  /\ handleImageClick Z.eqb catalog3 7 "" [] initial <> initial
  /\ selectedImageIndex
       (handleImageClick Z.eqb catalog3 7 "" []
          (mkState (Number (Int 1)) true ""))
     <> Number (Int 1)
  /\ renderPopup catalog3 (handleImageClick Z.eqb catalog3 7 "" [] initial)
     = Throws Z
  /\ ~ (forall (id0 : Z) (s : State),
          absent Z.eqb catalog3 id0 ->
          handleImageClick Z.eqb catalog3 id0 "" [] s = s).
Proof.
  split; [exact absent_catalog3_7|].
  split; [discriminate|].
  split; [discriminate|].
  split; [reflexivity|].
  intros H. specialize (H 7 initial absent_catalog3_7). discriminate H.
Qed.

(** C5, as the code has it: on an empty catalog [handleNext] and
    [handlePrevious] return normally (nothing throws, nothing loops), but
    they are not no-ops: the remainder by [imagesData.length = 0] is NaN,
    which replaces [selectedImageIndex]; [showPopup] and [popupText] are
    kept. *)
Theorem next_previous_empty_catalog
    (Id : Type) (imagesData : list (ImageRecord Id)) (s : State) :
  List.length imagesData = 0%nat ->
  handleNext imagesData s
  = {| selectedImageIndex := Number NaN;
       showPopup := showPopup s;
       popupText := popupText s |}
  /\ handlePrevious imagesData s
  = {| selectedImageIndex := Number NaN;
       showPopup := showPopup s;
       popupText := popupText s |}.
Proof.
  intros Hlen.
  unfold handleNext, handlePrevious, setSelectedImageIndex, length.
  rewrite Hlen. cbn.
  destruct (ToNumber (selectedImageIndex s)); split; reflexivity.
Qed.

Lemma next_previous_empty_catalog_witness :
  handleNext (@nil (ImageRecord Z)) initial = mkState (Number NaN) false ""
  /\ handlePrevious (@nil (ImageRecord Z)) initial
     = mkState (Number NaN) false "".
Proof.
  exact (next_previous_empty_catalog Z [] initial eq_refl).
Defined.

(** C5 as stated fails: with the empty catalog, [handleNext] and
    [handlePrevious] change [selectedImageIndex], from [null] and from a
    number alike. *)
Lemma next_previous_empty_catalog_not_noop :
  handleNext (@nil (ImageRecord Z)) initial <> initial
  /\ handlePrevious (@nil (ImageRecord Z)) initial <> initial
  /\ selectedImageIndex
       (handleNext (@nil (ImageRecord Z)) (mkState (Number (Int 0)) true ""))
     <> Number (Int 0)
  /\ ~ (forall s : State,
          selectedImageIndex (handleNext (@nil (ImageRecord Z)) s)
          = selectedImageIndex s).
Proof.
  split; [discriminate|].
  split; [discriminate|].
  split; [discriminate|].
  intros H. specialize (H initial). discriminate H.
Qed.

(** C9. For every state (the popup open or not), [handleClosePopup] sets
    [showPopup] to false and changes nothing else: [selectedImageIndex]
    keeps its last value, it is not cleared, and [popupText] is kept. *)
Theorem handleClosePopup_only_hides (s : State) :
  handleClosePopup s
  = {| selectedImageIndex := selectedImageIndex s;
       showPopup := false;
       popupText := popupText s |}
  /\ showPopup (handleClosePopup s) = false
  /\ selectedImageIndex (handleClosePopup s) = selectedImageIndex s
  /\ forall (Id : Type) (imagesData : list (ImageRecord Id)),
       renderPopup imagesData (handleClosePopup s) = NoPopup Id.
Proof.
  repeat split.
Qed.

Example close_keeps_index :
  handleClosePopup (mkState (Number (Int 2)) true "")
  = mkState (Number (Int 2)) false "".
Proof. reflexivity. Qed.

(** *** Beyond the claims: selecting, stepping and rendering *)

(** [findIndex] returns the position of the first element that satisfies the
    predicate. *)
Lemma findIndex_from_first {A : Type} (p : A -> bool) (l : list A) :
  forall (k0 : Z) (j : nat) (a : A),
    nth_error l j = Some a ->
    p a = true ->
    (forall i b, (i < j)%nat -> nth_error l i = Some b -> p b = false) ->
    findIndex_from p l k0 = k0 + Z.of_nat j.
Proof.
  induction l as [|a0 l IH]; intros k0 j a Hj Hp Hfirst.
  - destruct j; discriminate Hj.
  - destruct j as [|j]; cbn in Hj |- *.
    + injection Hj as ->. rewrite Hp. lia.
    + rewrite (Hfirst 0%nat a0) by (cbn; reflexivity || lia).
      rewrite (IH (k0 + 1) j a Hj Hp); [lia|].
      intros i b Hi Hb. apply (Hfirst (S i) b); [lia|exact Hb].
Qed.

(** A list with an element satisfying [p] has a first such element. *)
Lemma first_match_exists {A : Type} (p : A -> bool) (l : list A) :
  (exists a, In a l /\ p a = true) ->
  exists j a,
    nth_error l j = Some a /\ p a = true
    /\ forall i b, (i < j)%nat -> nth_error l i = Some b -> p b = false.
Proof.
  induction l as [|a0 l IH]; intros [a [Hin Hp]]; [destruct Hin|].
  destruct (p a0) eqn:Hp0.
  - exists 0%nat, a0. repeat split; [exact Hp0|]. intros i b Hi. lia.
  - destruct IH as [j [a' [Hj [Hp' Hfirst]]]].
    + destruct Hin as [->|Hin]; [congruence|]. exists a. split; assumption.
    + exists (S j), a'. repeat split; [exact Hj|exact Hp'|].
      intros [|i] b Hi Hb; cbn in Hb.
      * injection Hb as <-. exact Hp0.
      * apply (Hfirst i b); [lia|exact Hb].
Qed.

Lemma at_index_of_nat {A : Type} (l : list A) (j : nat) :
  at_index l (Number (Int (Z.of_nat j))) = nth_error l j.
Proof.
  cbn. destruct (Z.ltb_spec (Z.of_nat j) 0) as [H|_]; [lia|].
  rewrite Nat2Z.id. reflexivity.
Qed.

Section MoreSelection.

Variable Id : Type.
Variable strict_eq : Id -> Id -> bool.
Variable imagesData : list (ImageRecord Id).

Let n : Z := Z.of_nat (List.length imagesData).

(** Selecting the [j]-th record, the first one that carries the identifier. *)
Lemma handleImageClick_first
    (id0 : Id) (path0 : string) (position0 : list float) (s : State)
    (j : nat) (img : ImageRecord Id) :
  nth_error imagesData j = Some img ->
  strict_eq (id img) id0 = true ->
  (forall i b, (i < j)%nat -> nth_error imagesData i = Some b ->
               strict_eq (id b) id0 = false) ->
  handleImageClick strict_eq imagesData id0 path0 position0 s
  = mkState (Number (Int (Z.of_nat j))) true (popupText s)
  /\ renderPopup imagesData
       (handleImageClick strict_eq imagesData id0 path0 position0 s)
     = PopupFor Id img.
Proof.
  intros Hj Hp Hfirst.
  assert (E : handleImageClick strict_eq imagesData id0 path0 position0 s
              = mkState (Number (Int (Z.of_nat j))) true (popupText s)).
  { unfold handleImageClick, findIndex.
    rewrite (findIndex_from_first _ _ 0 j img Hj Hp Hfirst). reflexivity. }
  split; [exact E|]. rewrite E. unfold renderPopup.
  cbn [showPopup selectedImageIndex]. rewrite at_index_of_nat, Hj.
  reflexivity.
Qed.

Lemma valid_index_lookup (v : value) :
  valid_index imagesData v ->
  exists img, at_index imagesData v = Some img /\ In img imagesData.
Proof.
  intros [i [-> Hi]]. cbn.
  destruct (Z.ltb_spec i 0) as [H|_]; [lia|].
  destruct (nth_error imagesData (Z.to_nat i)) as [img|] eqn:E.
  - exists img. split; [reflexivity|]. eapply nth_error_In, E.
  - apply nth_error_None in E. lia.
Qed.

Lemma valid_index_next (v : value) :
  0 < n -> v = Null \/ valid_index imagesData v ->
  valid_index imagesData (Number (rem (add (ToNumber v) (Int 1))
                                   (length imagesData))).
Proof.
  intros Hn Hv. unfold length. fold n.
  assert (H : exists i, ToNumber v = Int i /\ 0 <= i < n).
  { destruct Hv as [->|[i [-> Hi]]].
    - exists 0. cbn. split; [reflexivity|lia].
    - exists i. cbn. split; [reflexivity|exact Hi]. }
  destruct H as [i [-> Hi]]. cbn.
  destruct (Z.eqb_spec n 0) as [E|_]; [lia|].
  exists (Z.rem (i + 1) n). split; [reflexivity|]. fold n.
  rewrite Z.rem_mod_nonneg by lia. apply Z.mod_pos_bound. lia.
Qed.

Lemma valid_index_previous (v : value) :
  0 < n -> v = Null \/ valid_index imagesData v ->
  valid_index imagesData
    (Number (rem (add (sub (ToNumber v) (Int 1)) (length imagesData))
               (length imagesData))).
Proof.
  intros Hn Hv. unfold length. fold n.
  assert (H : exists i, ToNumber v = Int i /\ 0 <= i < n).
  { destruct Hv as [->|[i [-> Hi]]].
    - exists 0. cbn. split; [reflexivity|lia].
    - exists i. cbn. split; [reflexivity|exact Hi]. }
  destruct H as [i [-> Hi]]. cbn.
  destruct (Z.eqb_spec n 0) as [E|_]; [lia|].
  exists (Z.rem (i - 1 + n) n). split; [reflexivity|]. fold n.
  rewrite Z.rem_mod_nonneg by lia. apply Z.mod_pos_bound. lia.
Qed.

Lemma reachable_inv_step (s : State) (e : Event) :
  self_equal strict_eq imagesData ->
  reachable_inv imagesData s ->
  reachable_inv imagesData (step strict_eq imagesData s e).
Proof.
  intros Hself Hs. destruct e as [k| | |]; cbn [step].
  - unfold clickPlane.
    destruct (nth_error imagesData k) as [image|] eqn:Hk; [|exact Hs].
    unfold planePositions.
    rewrite (map_nth_error (@position Id) k imagesData Hk).
    pose proof (nth_error_In _ _ Hk) as Hin.
    destruct (first_match_exists
                (fun img => strict_eq (id img) (id image)) imagesData)
      as [j [img [Hj [Hp Hfirst]]]].
    { exists image. split; [exact Hin|]. apply Hself, Hin. }
    destruct (handleImageClick_first (id image) (path Id image)
                (position Id image) s j img Hj Hp Hfirst) as [-> _].
    assert (Hv : valid_index imagesData (Number (Int (Z.of_nat j)))).
    { exists (Z.of_nat j). split; [reflexivity|].
      assert (j < List.length imagesData)%nat
        by (apply nth_error_Some; congruence).
      lia. }
    right. split; [|split].
    + assert (k < List.length imagesData)%nat
        by (apply nth_error_Some; congruence).
      unfold n. lia.
    + right. exact Hv.
    + intros _. exact Hv.
  - destruct Hs as [[Hn Hp]|[Hn [Hv Hp]]]; [left|right]; cbn.
    + split; [exact Hn|reflexivity].
    + split; [exact Hn|]. split; [exact Hv|discriminate].
  - destruct Hs as [[Hn Hp]|[Hn [Hv Hp]]]; [left|right]; cbn.
    + split; assumption.
    + pose proof (valid_index_next _ Hn Hv) as Hv'.
      split; [exact Hn|]. split; [right; exact Hv'|]. intros _. exact Hv'.
  - destruct Hs as [[Hn Hp]|[Hn [Hv Hp]]]; [left|right]; cbn.
    + split; assumption.
    + pose proof (valid_index_previous _ Hn Hv) as Hv'.
      split; [exact Hn|]. split; [right; exact Hv'|]. intros _. exact Hv'.
Qed.

Lemma reachable_inv_run (trace : list Event) (s : State) :
  self_equal strict_eq imagesData ->
  reachable_inv imagesData s ->
  reachable_inv imagesData (run strict_eq imagesData trace s).
Proof.
  intros Hself. revert s. unfold run.
  induction trace as [|e trace IH]; intros s Hs; [exact Hs|].
  cbn [fold_left]. apply IH, reachable_inv_step; assumption.
Qed.

Lemma reachable_inv_initial : reachable_inv imagesData initial.
Proof.
  unfold reachable_inv. destruct (Z.eq_dec n 0) as [E|E].
  - left. split; [exact E|reflexivity].
  - right. split; [unfold n in *; lia|]. split; [left; reflexivity|].
    discriminate.
Qed.

Lemma reachable_inv_render (s : State) :
  reachable_inv imagesData s ->
  match renderPopup imagesData s with
  | NoPopup _ => showPopup s = false
  | PopupFor _ image => showPopup s = true /\ In image imagesData
  | Throws _ => False
  end.
Proof.
  unfold renderPopup. intros [[Hn Hp]|[Hn [Hv Hp]]].
  - rewrite Hp. reflexivity.
  - destruct (showPopup s); [|destruct (selectedImageIndex s); reflexivity].
    specialize (Hp eq_refl).
    destruct (valid_index_lookup _ Hp) as [img [E Hin]].
    destruct Hp as [i [Hi _]]. rewrite E, Hi. split; [reflexivity|exact Hin].
Qed.

End MoreSelection.

(** X1. When some record carries the identifier, [handleImageClick] stores
    the position of the first record that carries it, shows the popup, and
    the render that follows draws the popup for that record. *)
Theorem handleImageClick_present
    (Id : Type) (strict_eq : Id -> Id -> bool)
    (imagesData : list (ImageRecord Id))
    (id0 : Id) (path0 : string) (position0 : list float) (s : State) :
  (exists img, In img imagesData /\ strict_eq (id img) id0 = true) ->
  exists (j : nat) (img : ImageRecord Id),
    nth_error imagesData j = Some img
    /\ strict_eq (id img) id0 = true
    /\ (forall i b, (i < j)%nat -> nth_error imagesData i = Some b ->
                    strict_eq (id b) id0 = false)
    /\ handleImageClick strict_eq imagesData id0 path0 position0 s
       = mkState (Number (Int (Z.of_nat j))) true (popupText s)
    /\ renderPopup imagesData
         (handleImageClick strict_eq imagesData id0 path0 position0 s)
       = PopupFor Id img.
Proof.
  intros Hex.
  destruct (first_match_exists (fun img => strict_eq (id img) id0)
              imagesData Hex) as [j [img [Hj [Hp Hfirst]]]].
  exists j, img. split; [exact Hj|]. split; [exact Hp|].
  split; [exact Hfirst|].
  apply handleImageClick_first; assumption.
Qed.

Lemma handleImageClick_present_witness :
  exists (j : nat) (img : ImageRecord Z),
    nth_error catalog3 j = Some img
    /\ Z.eqb (id img) 3 = true
    /\ (forall i b, (i < j)%nat -> nth_error catalog3 i = Some b ->
                    Z.eqb (id b) 3 = false)
    /\ handleImageClick Z.eqb catalog3 3 "" [] initial
       = mkState (Number (Int (Z.of_nat j))) true ""
    /\ renderPopup catalog3 (handleImageClick Z.eqb catalog3 3 "" [] initial)
       = PopupFor Z img.
Proof.
  apply (handleImageClick_present Z Z.eqb catalog3 3 "" [] initial).
  exists (mkImage 3 "" [] "" ""). split; [|reflexivity].
  right. right. left. reflexivity.
Defined.

(** X2. Clicking the [k]-th image plane selects index [k] and draws the
    popup for the [k]-th record, provided the record's identifier is equal
    to itself and no earlier record carries the same identifier. *)
Theorem clickPlane_selects_plane
    (Id : Type) (strict_eq : Id -> Id -> bool)
    (imagesData : list (ImageRecord Id))
    (k : nat) (image : ImageRecord Id) (s : State) :
  nth_error imagesData k = Some image ->
  strict_eq (id image) (id image) = true ->
  (forall i b, (i < k)%nat -> nth_error imagesData i = Some b ->
               strict_eq (id b) (id image) = false) ->
  clickPlane strict_eq imagesData k s
  = mkState (Number (Int (Z.of_nat k))) true (popupText s)
  /\ renderPopup imagesData (clickPlane strict_eq imagesData k s)
     = PopupFor Id image.
Proof.
  intros Hk Hrefl Hfirst. unfold clickPlane, planePositions.
  rewrite Hk, (map_nth_error (@position Id) k imagesData Hk).
  apply handleImageClick_first; assumption.
Qed.

Lemma clickPlane_selects_plane_witness :
  clickPlane Z.eqb catalog3 2 initial = mkState (Number (Int 2)) true ""
  /\ renderPopup catalog3 (clickPlane Z.eqb catalog3 2 initial)
     = PopupFor Z (mkImage 3 "" [] "" "").
Proof.
  apply (clickPlane_selects_plane Z Z.eqb catalog3 2
           (mkImage 3 "" [] "" "") initial).
  - reflexivity.
  - reflexivity.
  - intros [|[|i]] b Hi Hb; cbn in Hb.
    + injection Hb as <-. reflexivity.
    + injection Hb as <-. reflexivity.
    + lia.
Defined.

(** Two planes with one identifier: the click on the second opens the popup
    of the first. *)
Example click_duplicate_opens_first :
  clickPlane Z.eqb [mkImage 5 "a" [] "" ""; mkImage 5 "b" [] "" ""] 1 initial
  = mkState (Number (Int 0)) true "".
Proof. reflexivity. Qed.

(** X3. On a valid index [handleNext] and [handlePrevious] undo each other:
    either one after the other gives back the state. *)
Theorem next_previous_inverse
    (Id : Type) (imagesData : list (ImageRecord Id)) (s : State) :
  valid_index imagesData (selectedImageIndex s) ->
  handlePrevious imagesData (handleNext imagesData s) = s
  /\ handleNext imagesData (handlePrevious imagesData s) = s.
Proof.
  intros [i [Hs Hi]]. destruct s as [v sp pt]. cbn in Hs. subst v.
  unfold handleNext, handlePrevious, setSelectedImageIndex, length. cbn.
  set (n := Z.of_nat (List.length imagesData)) in *.
  destruct (Z.eqb_spec n 0) as [E|_]; [lia|]. cbn.
  destruct (Z.eqb_spec n 0) as [E|_]; [lia|].
  rewrite (Z.rem_mod_nonneg (i + 1) n) by lia.
  rewrite (Z.rem_mod_nonneg (i - 1 + n) n) by lia.
  assert (H1 : 0 <= (i + 1) mod n < n) by (apply Z.mod_pos_bound; lia).
  assert (H2 : 0 <= (i - 1 + n) mod n < n) by (apply Z.mod_pos_bound; lia).
  rewrite !Z.rem_mod_nonneg by lia.
  replace ((i + 1) mod n - 1 + n) with ((i + 1) mod n + (n - 1)) by lia.
  rewrite !Z.add_mod_idemp_l by lia.
  replace (i + 1 + (n - 1)) with (i + 1 * n) by lia.
  replace (i - 1 + n + 1) with (i + 1 * n) by lia.
  rewrite Z.mod_add, Z.mod_small by lia.
  split; reflexivity.
Qed.

Lemma next_previous_inverse_witness :
  let s := mkState (Number (Int 2)) true "" in
  handlePrevious catalog3 (handleNext catalog3 s) = s
  /\ handleNext catalog3 (handlePrevious catalog3 s) = s.
Proof.
  apply (next_previous_inverse Z catalog3 (mkState (Number (Int 2)) true "")).
  exists 2. split; [reflexivity|]. cbn. lia.
Defined.

(** X4. Whatever the user does from the initial state (clicks on planes,
    close, next, previous, in any order and number), the render never throws:
    the popup is drawn exactly when [showPopup] is set, and then for a record
    of the catalog.  The identifiers only have to be equal to themselves. *)
Theorem render_never_throws
    (Id : Type) (strict_eq : Id -> Id -> bool)
    (imagesData : list (ImageRecord Id)) (trace : list Event) :
  self_equal strict_eq imagesData ->
  match renderPopup imagesData (run strict_eq imagesData trace initial) with
  | NoPopup _ => showPopup (run strict_eq imagesData trace initial) = false
  | PopupFor _ image =>
      showPopup (run strict_eq imagesData trace initial) = true
      /\ In image imagesData
  | Throws _ => False
  end.
Proof.
  intros Hself. apply reachable_inv_render.
  apply reachable_inv_run; [exact Hself|]. apply reachable_inv_initial.
Qed.

Lemma self_equal_catalog3 : self_equal Z.eqb catalog3.
Proof.
  intros img [<-|[<-|[<-|[]]]]; reflexivity.
Defined.

Lemma render_never_throws_witness :
  match renderPopup catalog3
          (run Z.eqb catalog3
             [NextImage; ClickPlane 2; NextImage; ClosePopup; PreviousImage;
              ClickPlane 7; ClickPlane 0; PreviousImage]
             initial) with
  | NoPopup _ => False
  | PopupFor _ image => In image catalog3
  | Throws _ => False
  end.
Proof.
  pose proof (render_never_throws Z Z.eqb catalog3
                [NextImage; ClickPlane 2; NextImage; ClosePopup;
                 PreviousImage; ClickPlane 7; ClickPlane 0; PreviousImage]
                self_equal_catalog3) as H.
  cbn in H |- *. exact (proj2 H).
Defined.

End SelectionFacts.

(* ------------------------------------------------------------------------- *)
(** ** Popup scale-in *)

Module PopupFacts.

Import Popup.
Local Open Scope float_scope.

(** A state with no outstanding request is a fixed point of [frame]. *)
Lemma frame_idle (a : Anim) : animationFrame a = false -> frame a = a.
Proof. unfold frame. intros ->. reflexivity. Qed.

Lemma iter_frame_idle (a : Anim) (k : nat) :
  animationFrame a = false -> Nat.iter k frame a = a.
Proof.
  intros Ha. induction k as [|k IH]; [reflexivity|].
  rewrite Nat.iter_succ, IH. apply frame_idle, Ha.
Qed.

(** The snap branch of [animate] leaves [popupScale = 1] and requests no
    further frame. *)
Lemma animate_settles (a : Anim) :
  settles a = true ->
  popupScale (animate a) = 1 /\ animationFrame (animate a) = false.
Proof.
  unfold settles, animate. cbv zeta.
  destruct (far_from_one (ease (scale a))); [discriminate|].
  intros _. split; reflexivity.
Qed.

(** [|scale - 1| <= 0.01] for the eased scale sends [animate] to its snap
    branch. *)
Lemma within_tolerance_settles (a : Anim) :
  within_tolerance (ease (scale a)) = true -> settles a = true.
Proof.
  unfold within_tolerance, settles, far_from_one. intros H.
  rewrite (FloatFacts.leb_not_gtb _ _ H). reflexivity.
Qed.

(** The effect overwrites [popupScale] at once, so the animation does not
    depend on the value the cell held. *)
Lemma effect_mount (p : float) : effect p = mount.
Proof. reflexivity. Qed.

Lemma mount_settles : Nat.iter settle_frames frame mount = settled.
Proof. vm_compute. reflexivity. Qed.

Lemma mount_settled_after (j : nat) :
  Nat.iter (settle_frames + j) frame mount = settled.
Proof.
  rewrite Nat.add_comm, Nat.iter_add, mount_settles.
  apply iter_frame_idle. reflexivity.
Qed.

Lemma mount_steps_ok :
  forallb (fun k => step_ok (Nat.iter k frame mount))
          (seq 0 (S settle_frames)) = true.
Proof. vm_compute. reflexivity. Qed.

Lemma mount_step_ok (k : nat) : step_ok (Nat.iter k frame mount) = true.
Proof.
  destruct (Nat.le_gt_cases k settle_frames) as [Hk|Hk].
  - apply (proj1 (forallb_forall _ _) mount_steps_ok k).
    apply in_seq. lia.
  - replace k with (settle_frames + (k - settle_frames))%nat by lia.
    rewrite mount_settled_after. vm_compute. reflexivity.
Qed.

(** While a frame is requested the displayed scale is the animated one. *)
Lemma animate_requested (a : Anim) :
  animationFrame (animate a) = true ->
  popupScale (animate a) = scale (animate a).
Proof.
  unfold animate. cbv zeta.
  destruct (far_from_one (ease (scale a))); [reflexivity|discriminate].
Qed.

Lemma iter_requested (p : float) (k : nat) :
  animationFrame (Nat.iter k frame (effect p)) = true ->
  popupScale (Nat.iter k frame (effect p))
  = scale (Nat.iter k frame (effect p)).
Proof.
  destruct k as [|k].
  - apply animate_requested.
  - rewrite Nat.iter_succ.
    generalize (Nat.iter k frame (effect p)). intros a. unfold frame.
    destruct (animationFrame a) eqn:Ha.
    + apply animate_requested.
    + rewrite Ha. discriminate.
Qed.

(** What one frame does to the two scales. *)
Lemma frame_scales (a : Anim) :
  scale (frame a)
  = (if animationFrame a then scale a + (1 - scale a) * 0.15 else scale a)
  /\ popupScale (frame a)
     = (if animationFrame a
        then if 0.01 <? abs (scale (frame a) - 1) then scale (frame a) else 1
        else popupScale a).
Proof.
  unfold frame. destruct (animationFrame a); [|split; reflexivity].
  unfold animate, far_from_one, ease. cbv zeta.
  destruct (0.01 <? abs (scale a + (1 - scale a) * 0.15 - 1)) eqn:E;
    cbn [scale popupScale]; rewrite ?E; split; reflexivity.
Qed.

Lemma mount_running :
  forallb (fun k => running (Nat.iter k frame mount)) (seq 0 settle_frames)
  = true.
Proof. vm_compute. reflexivity. Qed.

(** C10. Throughout the scale-in animation (from the effect run at mount or
    at an image change, whatever [popupScale] held, and after any number [k]
    of frames): the animation starts at [0.7], the first value shown being
    [0.7 + (1 - 0.7) * 0.15]; each frame that runs replaces [scale] by
    [scale + (1 - scale) * 0.15] and shows it, or shows 1 once
    [|scale - 1| > 0.01] fails; [scale] and the displayed [popupScale] stay
    within [[0.7, 1]], no frame decreases either and none takes them above
    1; for the first twenty frames the animation is under way with
    [popupScale] below 1, and from the twentieth on the snap has set
    [popupScale] to exactly 1 and no frame is requested. *)
Theorem popup_scale_bounds (p : float) (k : nat) :
  let a := Nat.iter k frame (effect p) in
  within 0.7 1 (scale a) = true
  /\ within 0.7 1 (popupScale a) = true
  /\ (scale a <=? scale (frame a)) = true
  /\ (popupScale a <=? popupScale (frame a)) = true
  /\ initialScale = 0.7
  /\ (initialScale <=? scale (effect p)) = true
  /\ popupScale (Nat.iter (settle_frames + k) frame (effect p)) = 1
  /\ animationFrame (Nat.iter (settle_frames + k) frame (effect p)) = false
  /\ effect p
     = animate {| scale := 0.7; popupScale := p; animationFrame := false |}
  /\ scale (effect p) = 0.7 + (1 - 0.7) * 0.15
  /\ popupScale (effect p) = 0.7 + (1 - 0.7) * 0.15
  /\ animationFrame (effect p) = true
  /\ scale (frame a)
     = (if animationFrame a then scale a + (1 - scale a) * 0.15 else scale a)
  /\ popupScale (frame a)
     = (if animationFrame a
        then if 0.01 <? abs (scale (frame a) - 1) then scale (frame a) else 1
        else popupScale a)
  /\ (if (k <? settle_frames)%nat
      then animationFrame a = true
           /\ popupScale a = scale a
           /\ (popupScale a <? 1) = true
      else animationFrame a = false /\ popupScale a = 1).
Proof.
  cbv zeta.
  assert (Hrun :
    if (k <? settle_frames)%nat
    then animationFrame (Nat.iter k frame (effect p)) = true
         /\ popupScale (Nat.iter k frame (effect p))
            = scale (Nat.iter k frame (effect p))
         /\ (popupScale (Nat.iter k frame (effect p)) <? 1) = true
    else animationFrame (Nat.iter k frame (effect p)) = false
         /\ popupScale (Nat.iter k frame (effect p)) = 1).
  { destruct (Nat.ltb_spec k settle_frames) as [Hk|Hk].
    - pose proof (proj1 (forallb_forall _ _) mount_running k) as H.
      rewrite <- (effect_mount p) in H.
      specialize (H (proj2 (in_seq _ _ _) (conj (Nat.le_0_l k) Hk))).
      apply andb_true_iff in H. destruct H as [Hreq Hlt].
      split; [exact Hreq|]. split; [apply iter_requested, Hreq|exact Hlt].
    - replace k with (settle_frames + (k - settle_frames))%nat by lia.
      rewrite effect_mount, mount_settled_after. split; reflexivity. }
  destruct (frame_scales (Nat.iter k frame (effect p))) as [Hstep Hshow].
  rewrite effect_mount in *. rewrite mount_settled_after.
  pose proof (mount_step_ok k) as H. unfold step_ok in H.
  apply andb_true_iff in H. destruct H as [H Hpop].
  apply andb_true_iff in H. destruct H as [H Hscale].
  apply andb_true_iff in H. destruct H as [Hin Hin'].
  repeat split; assumption || reflexivity.
Qed.

Example popup_first_frame :
  mount = {| scale := 0.745; popupScale := 0.745; animationFrame := true |}.
Proof. reflexivity. Qed.

End PopupFacts.

(* ------------------------------------------------------------------------- *)
(** ** Keyboard pan animator *)

Module PanAnimatorFacts.

Import PanAnimator.
Local Open Scope float_scope.

Section FrameFacts.

Variable update : MapControls -> MapControls.

(** With the animator disarmed the frame callback does nothing. *)
Lemma useFrame_idle (r : Refs) :
  isAnimatingPanRef r = false -> useFrame update r = r.
Proof. unfold useFrame. intros ->. reflexivity. Qed.

Lemma iter_useFrame_idle (r : Refs) (k : nat) :
  isAnimatingPanRef r = false -> Nat.iter k (useFrame update) r = r.
Proof.
  intros Hr. induction k as [|k IH]; [reflexivity|].
  rewrite Nat.iter_succ, IH. apply useFrame_idle, Hr.
Qed.

(** The snap branch disarms the animator and leaves the camera position and
    the look-at point on their targets. *)
Lemma useFrame_snaps (r : Refs) :
  snaps update r = true ->
  isAnimatingPanRef (useFrame update r) = false
  /\ exists cam controls,
       controlsRef (useFrame update r) = Some controls
       /\ object controls = Some cam
       /\ Some (position cam) = targetCameraPositionRef r
       /\ Some (target controls) = targetControlsLookAtRef r.
Proof.
  unfold snaps, useFrame.
  destruct (isAnimatingPanRef r); [|discriminate].
  destruct (controlsRef r) as [controls|]; [|discriminate].
  destruct (targetCameraPositionRef r) as [tp|]; [|discriminate].
  destruct (targetControlsLookAtRef r) as [tl|]; [|discriminate].
  cbv zeta.
  destruct (object (approach update controls tp tl)) as [cam|];
    [|discriminate].
  intros ->. cbn. split; [reflexivity|].
  eexists _, _. repeat split.
Qed.

End FrameFacts.

(** C7. For every state of the animator, a key press (an arrow key or any
    other key) handled while the popup is visible changes nothing: the
    target refs, the animating flag, the controls and [panOffset] are what
    they were; and so does any sequence of key presses. *)
Theorem handleKeyDown_popup_visible (key : string) (r : Refs) :
  handleKeyDown true key r = r
  /\ targetCameraPositionRef (handleKeyDown true key r)
     = targetCameraPositionRef r
  /\ targetControlsLookAtRef (handleKeyDown true key r)
     = targetControlsLookAtRef r
  /\ isAnimatingPanRef (handleKeyDown true key r) = isAnimatingPanRef r
  /\ forall keys : list string,
       fold_left (fun r' key' => handleKeyDown true key' r') keys r = r.
Proof.
  repeat split.
  intros keys. induction keys as [|key' keys IH]; [reflexivity|].
  cbn [fold_left]. exact IH.
Qed.

Example arrow_right_arms :
  handleKeyDown false "ArrowRight" atRest
  = {| controlsRef := controlsRef atRest;
       targetCameraPositionRef := Some (mkVector3 0.2 0 10);
       targetControlsLookAtRef := Some (mkVector3 0.2 0 0);
       isAnimatingPanRef := true;
       panOffset := mkVector3 0.2 0 0 |}.
Proof. reflexivity. Qed.

Example arrow_down_arms :
  handleKeyDown false "ArrowDown" atRest
  = {| controlsRef := controlsRef atRest;
       targetCameraPositionRef := Some (mkVector3 0 (-0.2) 10);
       targetControlsLookAtRef := Some (mkVector3 0 (-0.2) 0);
       isAnimatingPanRef := true;
       panOffset := mkVector3 (-0) (-0.2) (-0) |}.
Proof. reflexivity. Qed.

Example other_key_does_not_arm :
  isAnimatingPanRef (handleKeyDown false "Enter" atRest) = false.
Proof. reflexivity. Qed.

Example arrow_right_ignored_with_popup :
  handleKeyDown true "ArrowRight" atRest = atRest.
Proof. reflexivity. Qed.

Example almostThere_snaps :
  useFrame (fun c => c) almostThere
  = {| controlsRef :=
         Some {| object := Some {| position := mkVector3 0.005 0 10;
                                   matrix := identity4 |};
                 target := mkVector3 0.005 0 0 |};
       targetCameraPositionRef := Some (mkVector3 0.005 0 10);
       targetControlsLookAtRef := Some (mkVector3 0.005 0 0);
       isAnimatingPanRef := false;
       panOffset := mkVector3 0.2 0 0 |}.
Proof. reflexivity. Qed.

(** *** Beyond the claims: arming, targets, and runs of events *)

Lemma keyPan_arrow (key : string) (cam : Camera) :
  match keyPan key cam with
  | Some _ => isArrowKey key = true
  | None => isArrowKey key = false
  end.
Proof.
  unfold keyPan, isArrowKey.
  destruct (String.eqb key "ArrowUp"); [reflexivity|].
  destruct (String.eqb key "ArrowDown"); [reflexivity|].
  destruct (String.eqb key "ArrowLeft"); [reflexivity|].
  destruct (String.eqb key "ArrowRight"); reflexivity.
Qed.

Section MoreFrameFacts.

Variable update : MapControls -> MapControls.

(** The frame callback leaves the target refs and [panOffset] alone, leaves
    [controlsRef] set, and does not arm the animator. *)
Lemma useFrame_keeps (r : Refs) :
  targetCameraPositionRef (useFrame update r) = targetCameraPositionRef r
  /\ targetControlsLookAtRef (useFrame update r) = targetControlsLookAtRef r
  /\ panOffset (useFrame update r) = panOffset r
  /\ (isAnimatingPanRef (useFrame update r) = true ->
      isAnimatingPanRef r = true)
  /\ (controlsRef r <> None -> controlsRef (useFrame update r) <> None).
Proof.
  unfold useFrame.
  destruct (isAnimatingPanRef r) eqn:Ha;
    [|rewrite Ha; repeat split; auto].
  destruct (controlsRef r) as [controls|] eqn:Hc;
    [|rewrite Ha, Hc; repeat split; auto].
  destruct (targetCameraPositionRef r) as [tp|] eqn:Htp;
    [|rewrite Ha, Hc, Htp; repeat split; auto].
  destruct (targetControlsLookAtRef r) as [tl|] eqn:Htl;
    [|rewrite Ha, Hc, Htp, Htl; repeat split; auto].
  cbv zeta.
  destruct (object (approach update controls tp tl)) as [cam|];
    [destruct (reached cam (approach update controls tp tl) tp tl)|];
    cbn; rewrite ?Htp, ?Htl; repeat split; auto; discriminate.
Qed.

Lemma armed_inv_step (r : Refs) (ev : Event) :
  armed_inv r -> armed_inv (step update r ev).
Proof.
  intros Hr. destruct ev as [sp key|]; cbn [step].
  - unfold handleKeyDown. destruct sp; [exact Hr|].
    destruct (controlsRef r) as [controls|] eqn:Hc; [|exact Hr].
    destruct (object controls) as [cam|]; [|exact Hr].
    destruct (keyPan key cam) as [offset|]; intros _; cbn; rewrite ?Hc;
      do 3 eexists; repeat split.
  - destruct (useFrame_keeps r) as [Htp [Htl [_ [Harm Hc]]]].
    intros H. destruct (Hr (Harm H)) as [controls [tp [tl [E1 [E2 E3]]]]].
    destruct (controlsRef (useFrame update r)) as [controls'|] eqn:Hc'.
    + exists controls', tp, tl. rewrite Htp, Htl. auto.
    + destruct Hc; [congruence|reflexivity].
Qed.

Lemma armed_inv_run (trace : list Event) (r : Refs) :
  armed_inv r -> armed_inv (run update trace r).
Proof.
  unfold run. revert r.
  induction trace as [|ev trace IH]; intros r Hr; [exact Hr|].
  cbn [fold_left]. apply IH, armed_inv_step, Hr.
Qed.

(** A key press adds its offset, if it has one, to both targets once they
    are set. *)
Lemma handleKeyDown_targets
    (showPopup : bool) (key : string) (r : Refs) (tp tl : Vector3) :
  targetCameraPositionRef r = Some tp ->
  targetControlsLookAtRef r = Some tl ->
  targetCameraPositionRef (handleKeyDown showPopup key r)
  = Some (fold_left add (keyOffset showPopup key r) tp)
  /\ targetControlsLookAtRef (handleKeyDown showPopup key r)
     = Some (fold_left add (keyOffset showPopup key r) tl).
Proof.
  intros Htp Htl. unfold handleKeyDown, keyOffset.
  destruct showPopup; [split; assumption|].
  destruct (controlsRef r) as [controls|]; [|split; assumption].
  destruct (object controls) as [cam|]; [|split; assumption].
  rewrite Htp, Htl.
  destruct (keyPan key cam) as [offset|]; split; reflexivity.
Qed.

Lemma run_targets (trace : list Event) :
  forall (r : Refs) (tp tl : Vector3),
    targetCameraPositionRef r = Some tp ->
    targetControlsLookAtRef r = Some tl ->
    targetCameraPositionRef (run update trace r)
    = Some (fold_left add (panOffsets update trace r) tp)
    /\ targetControlsLookAtRef (run update trace r)
       = Some (fold_left add (panOffsets update trace r) tl).
Proof.
  unfold run.
  induction trace as [|ev trace IH]; intros r tp tl Htp Htl.
  - split; assumption.
  - cbn [fold_left panOffsets]. rewrite !fold_left_app.
    destruct ev as [sp key|]; cbn [step].
    + destruct (handleKeyDown_targets sp key r tp tl Htp Htl) as [H1 H2].
      apply IH; assumption.
    + destruct (useFrame_keeps r) as [E1 [E2 _]].
      apply IH; [rewrite E1; exact Htp|rewrite E2; exact Htl].
Qed.

End MoreFrameFacts.

(** X9. In every run of key presses and frames from the refs as the
    component creates them, an armed animator has its controls and both of
    its targets: whenever [isAnimatingPanRef] is set, the frame callback's
    other three guards hold. *)
Theorem armed_has_targets
    (update : MapControls -> MapControls)
    (controls0 : option MapControls) (trace : list Event) :
  isAnimatingPanRef (run update trace (mounted controls0)) = true ->
  exists controls tp tl,
    controlsRef (run update trace (mounted controls0)) = Some controls
    /\ targetCameraPositionRef (run update trace (mounted controls0))
       = Some tp
    /\ targetControlsLookAtRef (run update trace (mounted controls0))
       = Some tl.
Proof.
  apply (armed_inv_run update trace (mounted controls0)).
  intros H. discriminate H.
Qed.

Lemma armed_has_targets_witness :
  exists controls tp tl,
    controlsRef
      (run (fun c => c) [KeyDown false "ArrowRight"; FrameTick; KeyDown false "ArrowUp"]
         (mounted (controlsRef atRest)))
    = Some controls
    /\ targetCameraPositionRef
         (run (fun c => c) [KeyDown false "ArrowRight"; FrameTick; KeyDown false "ArrowUp"]
            (mounted (controlsRef atRest)))
       = Some tp
    /\ targetControlsLookAtRef
         (run (fun c => c) [KeyDown false "ArrowRight"; FrameTick; KeyDown false "ArrowUp"]
            (mounted (controlsRef atRest)))
       = Some tl.
Proof.
  apply (armed_has_targets (fun c => c) (controlsRef atRest)
           [KeyDown false "ArrowRight"; FrameTick; KeyDown false "ArrowUp"]).
  reflexivity.
Defined.

(** X10. Once the two targets are set they are never cleared and never taken
    afresh from the camera.  A frame leaves them as they are; a key press
    adds its offset to both (the scaled camera axis, for an arrow key pressed
    with the popup hidden and the camera there) and adds nothing otherwise;
    so after any run of key presses and frames each target is its old value
    plus the offsets of the run's key presses, the same offsets in the same
    order for the position target and the look-at target. *)
Theorem targets_only_accumulate
    (update : MapControls -> MapControls)
    (trace : list Event) (r : Refs) (tp tl : Vector3) :
  targetCameraPositionRef r = Some tp ->
  targetControlsLookAtRef r = Some tl ->
  (targetCameraPositionRef (run update trace r)
   = Some (fold_left add (panOffsets update trace r) tp)
   /\ targetControlsLookAtRef (run update trace r)
      = Some (fold_left add (panOffsets update trace r) tl))
  /\ (targetCameraPositionRef (useFrame update r) = Some tp
      /\ targetControlsLookAtRef (useFrame update r) = Some tl)
  /\ (forall (showPopup : bool) (key : string),
        targetCameraPositionRef (handleKeyDown showPopup key r)
        = Some (match keyOffset showPopup key r with
                | offset :: _ => add tp offset
                | [] => tp
                end)
        /\ targetControlsLookAtRef (handleKeyDown showPopup key r)
           = Some (match keyOffset showPopup key r with
                   | offset :: _ => add tl offset
                   | [] => tl
                   end)
        /\ keyOffset showPopup key r
           = (if negb showPopup && isArrowKey key
              then match controlsRef r with
                   | Some controls =>
                       match object controls with
                       | Some currentCamera =>
                           match keyPan key currentCamera with
                           | Some offset => [offset]
                           | None => []
                           end
                       | None => []
                       end
                   | None => []
                   end
              else [])).
Proof.
  intros Htp Htl. split; [apply run_targets; assumption|]. split.
  - destruct (useFrame_keeps update r) as [E1 [E2 _]].
    rewrite E1, E2. split; assumption.
  - intros showPopup key.
    destruct (handleKeyDown_targets showPopup key r tp tl Htp Htl)
      as [H1 H2].
    rewrite H1, H2. unfold keyOffset.
    destruct showPopup; [repeat split|]. cbn [negb andb].
    destruct (controlsRef r) as [controls|];
      [|destruct (isArrowKey key); repeat split].
    destruct (object controls) as [cam|];
      [|destruct (isArrowKey key); repeat split].
    pose proof (keyPan_arrow key cam) as Hk.
    destruct (keyPan key cam); rewrite Hk; repeat split.
Qed.

Lemma targets_only_accumulate_witness :
  targetCameraPositionRef
    (run (fun c => c)
       [FrameTick; KeyDown false "ArrowRight"; KeyDown true "ArrowUp";
        KeyDown false "Enter"; FrameTick; KeyDown false "ArrowUp"]
       almostThere)
  = Some (add (add (mkVector3 0.005 0 10) (mkVector3 0.2 0 0))
            (mkVector3 0 0.2 0))
  /\ targetControlsLookAtRef
       (run (fun c => c)
          [FrameTick; KeyDown false "ArrowRight"; KeyDown true "ArrowUp";
           KeyDown false "Enter"; FrameTick; KeyDown false "ArrowUp"]
          almostThere)
     = Some (add (add (mkVector3 0.005 0 0) (mkVector3 0.2 0 0))
               (mkVector3 0 0.2 0)).
Proof.
  exact (proj1 (targets_only_accumulate (fun c => c)
                  [FrameTick; KeyDown false "ArrowRight";
                   KeyDown true "ArrowUp"; KeyDown false "Enter"; FrameTick;
                   KeyDown false "ArrowUp"]
                  almostThere (mkVector3 0.005 0 10) (mkVector3 0.005 0 0)
                  eq_refl eq_refl)).
Defined.

(** After the animator has settled on its target, a camera moved elsewhere
    still pans from the old target: the key press adds to the stored target,
    not to the camera's position. *)
Example key_after_settling_uses_old_target :
  let settled := useFrame (fun c => c) almostThere in
  let moved :=
    setControls
      {| object := Some {| position := mkVector3 3 0 10;
                           matrix := identity4 |};
         target := mkVector3 3 0 0 |} settled in
  isAnimatingPanRef settled = false
  /\ targetCameraPositionRef (handleKeyDown false "ArrowRight" moved)
     = Some (mkVector3 0.20500000000000002 0 10).
Proof. split; reflexivity. Qed.

(** X11. Who arms and who disarms.  A key press arms the animator exactly
    when the popup is hidden, the key is one of the four arrow keys and the
    controls with their camera are there; it never disarms it and never
    touches the controls.  A frame never arms it. *)
Theorem arming (update : MapControls -> MapControls)
    (showPopup : bool) (key : string) (r : Refs) :
  isAnimatingPanRef (handleKeyDown showPopup key r)
  = isAnimatingPanRef r
    || (negb showPopup && isArrowKey key && hasCamera r)
  /\ controlsRef (handleKeyDown showPopup key r) = controlsRef r
  /\ implb (isAnimatingPanRef (useFrame update r)) (isAnimatingPanRef r)
     = true.
Proof.
  split; [|split].
  - unfold handleKeyDown, hasCamera.
    destruct showPopup; cbn [negb andb]; [rewrite orb_false_r; reflexivity|].
    destruct (controlsRef r) as [controls|];
      [|rewrite andb_false_r, orb_false_r; reflexivity].
    destruct (object controls) as [cam|];
      [|rewrite andb_false_r, orb_false_r; reflexivity].
    pose proof (keyPan_arrow key cam) as Hk.
    destruct (keyPan key cam); rewrite Hk; cbn.
    + rewrite orb_true_r. reflexivity.
    + rewrite orb_false_r. reflexivity.
  - unfold handleKeyDown. destruct showPopup; [reflexivity|].
    destruct (controlsRef r) as [controls|] eqn:Hc; [|congruence].
    destruct (object controls) as [cam|]; [|congruence].
    destruct (keyPan key cam); cbn; congruence.
  - destruct (useFrame_keeps update r) as [_ [_ [_ [Harm _]]]].
    destruct (isAnimatingPanRef (useFrame update r));
      [rewrite Harm; reflexivity|reflexivity].
Qed.

End PanAnimatorFacts.

(* ------------------------------------------------------------------------- *)
(** ** Frame ticks after convergence *)

(** C6, as the code has it.  Once an animation has converged, further frame
    ticks change nothing.  For the keyboard pan animator: when a frame finds
    both remaining distances below the threshold ([snaps]), it disarms the
    animator with the camera on its target, and every further frame callback
    leaves the refs as they are; the two target refs are not cleared, they
    keep the target that was reached, and it is [isAnimatingPanRef] alone
    that makes the animator idle.  For the popup: when the scale [animate]
    has eased to satisfies [|scale - 1| <= 0.01], [animate] sets
    [popupScale] to 1 and requests no frame, and every further frame leaves
    the animation state as it is. *)
Theorem frame_ticks_after_convergence
    (update : PanAnimator.MapControls -> PanAnimator.MapControls)
    (r : PanAnimator.Refs) (a : Popup.Anim) (k : nat) :
  (PanAnimator.snaps update r = true ->
     PanAnimator.isAnimatingPanRef (PanAnimator.useFrame update r) = false
     /\ (exists cam controls,
           PanAnimator.controlsRef (PanAnimator.useFrame update r)
           = Some controls
           /\ PanAnimator.object controls = Some cam
           /\ Some (PanAnimator.position cam)
              = PanAnimator.targetCameraPositionRef r
           /\ Some (PanAnimator.target controls)
              = PanAnimator.targetControlsLookAtRef r)
     /\ (exists tp tl,
           PanAnimator.targetCameraPositionRef (PanAnimator.useFrame update r)
           = Some tp
           /\ PanAnimator.targetControlsLookAtRef
                (PanAnimator.useFrame update r)
              = Some tl
           /\ PanAnimator.targetCameraPositionRef r = Some tp
           /\ PanAnimator.targetControlsLookAtRef r = Some tl)
     /\ Nat.iter k (PanAnimator.useFrame update) (PanAnimator.useFrame update r)
        = PanAnimator.useFrame update r)
  /\ (Popup.within_tolerance (Popup.ease (Popup.scale a)) = true ->
        Popup.popupScale (Popup.animate a) = 1%float
        /\ Popup.animationFrame (Popup.animate a) = false
        /\ Nat.iter k Popup.frame (Popup.animate a) = Popup.animate a).
Proof.
  split.
  - intros Hr.
    destruct (PanAnimatorFacts.useFrame_snaps update r Hr) as [Hidle Hcam].
    split; [exact Hidle|]. split; [exact Hcam|]. split.
    + destruct (PanAnimatorFacts.useFrame_keeps update r)
        as [Htp [Htl _]].
      destruct Hcam as [cam [controls [_ [_ [Ep El]]]]].
      exists (PanAnimator.position cam), (PanAnimator.target controls).
      rewrite Htp, Htl, <- Ep, <- El. repeat split.
    + apply PanAnimatorFacts.iter_useFrame_idle, Hidle.
  - intros Ha. apply PopupFacts.within_tolerance_settles in Ha.
    destruct (PopupFacts.animate_settles a Ha) as [Hone Hstop].
    repeat split; try assumption.
    apply PopupFacts.iter_frame_idle, Hstop.
Qed.

Lemma frame_ticks_after_convergence_witness :
  let r := PanAnimator.almostThere in
  let a := Nat.iter 19 Popup.frame Popup.mount in
  let update := fun c : PanAnimator.MapControls => c in
  (PanAnimator.snaps update r = true
   /\ Nat.iter 5 (PanAnimator.useFrame update) (PanAnimator.useFrame update r)
      = PanAnimator.useFrame update r)
  /\ (Popup.within_tolerance (Popup.ease (Popup.scale a)) = true
      /\ Nat.iter 5 Popup.frame (Popup.animate a) = Popup.animate a).
Proof.
  cbv zeta.
  destruct (frame_ticks_after_convergence
              (fun c => c) PanAnimator.almostThere
              (Nat.iter 19 Popup.frame Popup.mount) 5) as [Hpan Hpop].
  split.
  - split; [reflexivity|]. apply Hpan. reflexivity.
  - split; [reflexivity|]. apply Hpop. reflexivity.
Defined.

(** C6 as stated fails in its description of the converged animator: it is
    idle, but not "with no pending target".  The frame that snaps the armed
    animator [almostThere] onto its target leaves both target refs holding
    that target; no frame sets them to [null]. *)
Lemma converged_animator_keeps_targets :
  PanAnimator.snaps (fun c => c) PanAnimator.almostThere = true
  /\ PanAnimator.isAnimatingPanRef
       (PanAnimator.useFrame (fun c => c) PanAnimator.almostThere) = false
  /\ PanAnimator.targetCameraPositionRef
       (PanAnimator.useFrame (fun c => c) PanAnimator.almostThere)
     = Some (PanAnimator.mkVector3 0.005 0 10)
  /\ PanAnimator.targetControlsLookAtRef
       (PanAnimator.useFrame (fun c => c) PanAnimator.almostThere)
     = Some (PanAnimator.mkVector3 0.005 0 0)
  /\ ~ (forall (update : PanAnimator.MapControls -> PanAnimator.MapControls)
               (r : PanAnimator.Refs),
          PanAnimator.snaps update r = true ->
          PanAnimator.targetCameraPositionRef (PanAnimator.useFrame update r)
          = None
          /\ PanAnimator.targetControlsLookAtRef
               (PanAnimator.useFrame update r)
             = None).
Proof.
  split; [reflexivity|]. split; [reflexivity|].
  split; [reflexivity|]. split; [reflexivity|].
  intros H.
  destruct (H (fun c => c) PanAnimator.almostThere eq_refl) as [H1 _].
  discriminate H1.
Qed.
